(** * Redishort: asset inventory and publish scheduling engine

    A shallow embedding of the control-plane code of the Redishort bot
    (main.py, video_assembler.py, video_segmenter.py, video_downloader.py,
    youtube_uploader.py, config.py) together with the properties its
    specification states about it.

    Conventions of the embedding:
    - Python [str] is [string]; [dict] is [gmap]; [set] is [gset].
    - A function that may raise returns [result]; the exception is data.
    - Everything the code obtains from outside the process (the wall clock,
      the random generator, ffmpeg, OpenCV, yt-dlp, the YouTube API) is an
      explicit argument, so every definition below can be evaluated.
    - The mutable process state and the disk are one record, [World],
      threaded explicitly through the operations. *)

From Stdlib Require Import ZArith QArith Qround Lia Ascii String.
From stdpp Require Import base option gmap strings list sorting pretty.

Local Open Scope string_scope.

(** ** Python prelude *)

Module Py.

(** Exceptions that the modelled code can raise.  The payload is the
    message (or the offending path). *)
Inductive exn :=
| ValueError (msg : string)
| IndexError (msg : string)
| FileNotFoundError (path : string)
| RuntimeError (msg : string).

Inductive result (A : Type) :=
| Ok (a : A)
| Raise (e : exn).
Arguments Ok {A} a.
Arguments Raise {A} e.

#[export] Instance result_ret : MRet result := @Ok.
#[export] Instance result_bind : MBind result := λ A B f m,
  match m with
  | Ok a => f a
  | Raise e => Raise e
  end.

(** [str(e)] for the exceptions above. *)
Definition str_of_exn (e : exn) : string :=
  match e with
  | ValueError m | IndexError m | RuntimeError m => m
  | FileNotFoundError p => "[Errno 2] No such file or directory: '" +:+ p +:+ "'"
  end.

(** Python truthiness of an optional string ([None] and [""] are falsy). *)
Definition truthy (v : option string) : bool :=
  match v with
  | Some s => negb (String.eqb s "")
  | None => false
  end.

(** [s.endswith(suf)]. *)
Definition endswith (s suf : string) : bool :=
  let n := String.length s in
  let k := String.length suf in
  (k <=? n)%nat && String.eqb (String.substring (n - k) k s) suf.

(** The newline character as a string. *)
Definition LF : string := String "010"%char EmptyString.

(** [sep.join(l)]. *)
Fixpoint join (sep : string) (l : list string) : string :=
  match l with
  | [] => ""
  | [x] => x
  | x :: rest => x +:+ sep +:+ join sep rest
  end.

(** [s.split(sep)] for a one-character separator: the pieces between the
    occurrences of [sep]; always at least one piece. *)
Fixpoint split_aux (sep : ascii) (cur : string) (s : string) : list string :=
  match s with
  | EmptyString => [String.rev cur]
  | String c rest =>
      if Ascii.eqb c sep then String.rev cur :: split_aux sep "" rest
      else split_aux sep (String c cur) rest
  end.
Definition split (sep : ascii) (s : string) : list string := split_aux sep "" s.

(** Characters at which [str.splitlines] breaks a line (those in the
    Latin-1 range): LF, VT, FF, CR, FS, GS, RS, NEL. *)
Definition is_linebreak (c : ascii) : bool :=
  let n := nat_of_ascii c in
  (n =? 10)%nat || (n =? 11)%nat || (n =? 12)%nat || (n =? 13)%nat ||
  (n =? 28)%nat || (n =? 29)%nat || (n =? 30)%nat || (n =? 133)%nat.

(** [s.splitlines()]: lines without their terminators; CR LF counts as
    one terminator; a terminator at the very end opens no further line. *)
Fixpoint splitlines_aux (cur : string) (s : string) : list string :=
  match s with
  | EmptyString =>
      match cur with
      | EmptyString => []
      | _ => [String.rev cur]
      end
  | String c rest =>
      if is_linebreak c then
        match c, rest with
        | "013"%char, String "010"%char rest' => String.rev cur :: splitlines_aux "" rest'
        | _, _ => String.rev cur :: splitlines_aux "" rest
        end
      else splitlines_aux (String c cur) rest
  end.
Definition splitlines (s : string) : list string := splitlines_aux "" s.

(** [random.choice(seq)] is [seq[randbelow(len(seq))]]; the random draw
    is the argument [r], reduced into range.  [None] stands for the
    IndexError on an empty sequence. *)
Definition random_choice {A} (r : nat) (seq : list A) : option A :=
  seq !! (r mod length seq)%nat.

End Py.
Export Py.

(** ** Configuration (config.py) *)

(** The fields of config.py that the control plane reads.  Folder and log
    locations are path strings relative to BASE_DIR. *)
Record Config := {
  PUBLISHING_SCHEDULE : list string;
  PUBLISH_TOLERANCE_MINUTES : Z;
  YOUTUBE_VIDEO_CATEGORY_ID : string;
  RAW_VIDEOS_FOLDER : string;
  SEGMENTS_FOLDER : string;
  ENABLE_VIDEO_TRIMMING : bool;
  TRIM_START_SECONDS : Z;
  TRIM_END_SECONDS : Z;
  MAX_RAW_VIDEOS_IN_LIBRARY : Z;
  HUNTING_TIERS : list (string * Z);
  CURATED_CHANNEL_IDS : list string;
  SEGMENT_DURATION_SECONDS : Z;
  MIN_SEGMENT_SIZE_BYTES : N;
  ENABLE_QUALITY_VALIDATION : bool;
  VALIDATION_FRAME_SAMPLES : Z;
  MIN_BRIGHTNESS : Z;
  MAX_BRIGHTNESS : Z;
  MIN_MOTION_SCORE : Q
}.

(** The values config.py ships with. *)
Definition default_config : Config := {|
  PUBLISHING_SCHEDULE := ["08:00"; "10:30"; "13:00"; "18:00"; "20:00"; "22:00"];
  PUBLISH_TOLERANCE_MINUTES := 30;
  YOUTUBE_VIDEO_CATEGORY_ID := "24";
  RAW_VIDEOS_FOLDER := "assets/raw_videos";
  SEGMENTS_FOLDER := "assets/segments";
  ENABLE_VIDEO_TRIMMING := true;
  TRIM_START_SECONDS := 30;
  TRIM_END_SECONDS := 30;
  MAX_RAW_VIDEOS_IN_LIBRARY := 6;
  HUNTING_TIERS := [("Ideal (Over 45m)", 2700%Z); ("Acceptable (Over 20m)", 1200%Z);
                    ("Minimum (Over 10m)", 600%Z)];
  CURATED_CHANNEL_IDS :=
    ["UC7eAfUjR9gdIjoaoQaS0W-A"; "UCMlSf7BCzfdRsIGAIpCnrXA"; "UCxFQofXJq9WxWWqlsTiQ-Aw";
     "UCns4T9U8VSIRovKa1a_r7rA"; "UCTSg06MQbQ5j3slP4mjzUEg"; "UCERExzbCGBxhhWBtFnMLInA";
     "UC4r6nalq_1-9rc80qdVLatQ"; "UCB5POybzno8F7lwLEr_C8og"; "UCCZIevhN62jJ2gb-u__M95g";
     "UCSNIT8Z40XgB4RKk9Vhf1eA"; "UCrI3dm4qgAEV67Jc6797WIA"; "UCIGEtjevANE0Nqain3EqNSg";
     "UCTGjE7hWuBRNqU-OnVSzq3Q"; "UCEoEkMVF0b_9SUnJaThEYRA"; "UChgkHw9M_OUTjYtFqkA1WOQ"];
  SEGMENT_DURATION_SECONDS := 120;
  MIN_SEGMENT_SIZE_BYTES := 102400;
  ENABLE_QUALITY_VALIDATION := true;
  VALIDATION_FRAME_SAMPLES := 5;
  MIN_BRIGHTNESS := 30;
  MAX_BRIGHTNESS := 220;
  MIN_MOTION_SCORE := 1
|}.

(** ** Aware datetimes (datetime + pytz) *)

Module DateTime.
Local Open Scope Z_scope.

(** A timezone-aware [datetime].  The calendar date is kept as its
    proleptic ordinal ([date.toordinal()]); [utcoffset] is the fixed
    offset, in minutes, of the pytz tzinfo attached to the value.
    [replace] and [+ timedelta] keep that tzinfo, as pytz does. *)
Record datetime := mk_datetime {
  toordinal : Z;
  hour : Z;
  minute : Z;
  second : Z;
  microsecond : Z;
  utcoffset : Z
}.

(** What [datetime.now(tz)] can return. *)
Definition valid (dt : datetime) : Prop :=
  0 <= hour dt < 24 /\ 0 <= minute dt < 60 /\ 0 <= second dt < 60 /\
  0 <= microsecond dt < 1000000.

(** Microseconds of local wall-clock time since ordinal 0. *)
Definition wall_us (dt : datetime) : Z :=
  (((toordinal dt * 24 + hour dt) * 60 + minute dt) * 60 + second dt) * 1000000
  + microsecond dt.

(** The instant denoted, in microseconds of UTC. *)
Definition utc_us (dt : datetime) : Z :=
  wall_us dt - utcoffset dt * 60 * 1000000.

(** Comparison of aware datetimes is comparison of instants (for two
    values with the same tzinfo Python compares the wall-clock fields,
    which gives the same answer since the offsets are then equal). *)
Definition ltb (a b : datetime) : bool := utc_us a <? utc_us b.
Definition leb (a b : datetime) : bool := utc_us a <=? utc_us b.
Definition gtb (a b : datetime) : bool := ltb b a.
Definition geb (a b : datetime) : bool := leb b a.

(** [a - b], a timedelta, in microseconds. *)
Definition sub (a b : datetime) : Z := utc_us a - utc_us b.

(** [timedelta.total_seconds()]. *)
Definition total_seconds (td : Z) : Q := td # 1000000.

(** [dt.replace(hour=h, minute=m, second=s, microsecond=us)]. *)
Definition replace (dt : datetime) (h m s us : Z) : result datetime :=
  if negb ((0 <=? h) && (h <? 24)) then Raise (ValueError "hour must be in 0..23")
  else if negb ((0 <=? m) && (m <? 60)) then Raise (ValueError "minute must be in 0..59")
  else if negb ((0 <=? s) && (s <? 60)) then Raise (ValueError "second must be in 0..59")
  else if negb ((0 <=? us) && (us <? 1000000)) then
    Raise (ValueError "microsecond must be in 0..999999")
  else Ok (mk_datetime (toordinal dt) h m s us (utcoffset dt)).

(** [dt + timedelta(days=n)] (the year-9999 overflow is out of scope). *)
Definition add_days (dt : datetime) (n : Z) : datetime :=
  mk_datetime (toordinal dt + n) (hour dt) (minute dt) (second dt)
              (microsecond dt) (utcoffset dt).

End DateTime.
Export DateTime.

(** ** Publish scheduler (main.py, get_next_publish_time) *)

Module Scheduler.
Local Open Scope Z_scope.

Definition is_digit (c : ascii) : bool :=
  let n := Z.of_N (N_of_ascii c) in (48 <=? n) && (n <=? 57).

Definition digit_value (c : ascii) : Z := Z.of_N (N_of_ascii c) - 48.

Fixpoint digits_value (acc : Z) (s : string) : option Z :=
  match s with
  | EmptyString => Some acc
  | String c rest =>
      if is_digit c then digits_value (acc * 10 + digit_value c) rest else None
  end.

(** [int(s)] on the literals the schedule uses: an optional sign and one
    or more ASCII digits.  (Python also accepts surrounding blanks,
    underscores between digits and non-ASCII digits; those spellings are
    not modelled and count as invalid here.) *)
Definition int (s : string) : result Z :=
  let invalid := Raise (ValueError ("invalid literal for int() with base 10: '" +:+ s +:+ "'")) in
  let digits (ds : string) (sign : Z) : result Z :=
    match ds with
    | EmptyString => invalid
    | _ => match digits_value 0 ds with Some v => Ok (sign * v) | None => invalid end
    end in
  match s with
  | EmptyString => invalid
  | String c ds =>
      if Ascii.eqb c "-" then digits ds (-1)
      else if Ascii.eqb c "+" then digits ds 1
      else digits s 1
  end.

(** [hour, minute = map(int, time_str.split(':'))]: the lazy [map] is
    consumed by the unpacking, which wants exactly two values. *)
Definition parse_hour_minute (time_str : string) : result (Z * Z) :=
  match split ":" time_str with
  | [] => Raise (ValueError "not enough values to unpack (expected 2, got 0)")
  | [a] => _ ← int a; Raise (ValueError "not enough values to unpack (expected 2, got 1)")
  | [a; b] => h ← int a; m ← int b; Ok (h, m)
  | a :: b :: c :: _ =>
      _ ← int a; _ ← int b; _ ← int c;
      Raise (ValueError "too many values to unpack (expected 2)")
  end.

(** The order [sorted] uses on [str]: lexicographic by code point. *)
Definition str_le (a b : string) : Prop := String.leb a b = true.
#[export] Instance str_le_dec a b : Decision (str_le a b).
Proof. unfold str_le. apply _. Defined.

(** [sorted(schedule)].  Python's sort is stable and so is [merge_sort]. *)
Definition sorted (schedule : list string) : list string := merge_sort str_le schedule.

(** The [for] loop of [get_next_publish_time]: the first slot, in the
    order given, whose occurrence today is after [now_in_tz]. *)
Fixpoint first_slot_today (now_in_tz : datetime) (slots : list string)
  : result (option datetime) :=
  match slots with
  | [] => Ok None
  | time_str :: rest =>
      '(hour, minute) ← parse_hour_minute time_str;
      next_publish_dt ← replace now_in_tz hour minute 0 0;
      if gtb next_publish_dt now_in_tz then Ok (Some next_publish_dt)
      else first_slot_today now_in_tz rest
  end.

(** [get_next_publish_time(schedule, timezone_str)].  The clock reading
    [datetime.now(pytz.timezone(timezone_str))] is the argument
    [now_in_tz]. *)
Definition get_next_publish_time (schedule : list string) (now_in_tz : datetime)
  : result datetime :=
  today ← first_slot_today now_in_tz (sorted schedule);
  match today with
  | Some next_publish_dt => Ok next_publish_dt
  | None =>
      let tomorrow_in_tz := add_days now_in_tz 1 in
      match sorted schedule with
      | [] => Raise (IndexError "list index out of range")
      | first :: _ =>
          '(first_hour, first_minute) ← parse_hour_minute first;
          replace tomorrow_in_tz first_hour first_minute 0 0
      end
  end.

End Scheduler.
Export Scheduler.

(** ** The process state and the disk *)

(** The body of a [videos().insert] request (youtube_uploader.py). *)
Record Snippet := {
  title : string;
  description : string;
  tags : list string;
  categoryId : string
}.

Record Status := {
  privacyStatus : string;
  selfDeclaredMadeForKids : bool;
  publishAt : option string       (* the key is absent when [None] *)
}.

Record Body := { snippet : Snippet; status : Status }.

(** One call of the YouTube Data API: the request body and the media file. *)
Record InsertRequest := { body : Body; media_body : string }.

Record World := mk_World {
  (** regular files on disk, path ↦ [st_size]; a directory is the set of
      files below it *)
  files : gmap string N;
  (** content of PROCESSED_VIDEOS_LOG, [None] while the file does not exist *)
  processed_videos_log : option string;
  (** [SegmentManager._assigned]: story id ↦ segment path *)
  _assigned : gmap string string;
  (** the insert requests sent to YouTube so far, oldest first *)
  youtube_requests : list InsertRequest
}.

Definition set_files (f : gmap string N) (w : World) : World :=
  mk_World f (processed_videos_log w) (_assigned w) (youtube_requests w).
Definition set_log (l : option string) (w : World) : World :=
  mk_World (files w) l (_assigned w) (youtube_requests w).
Definition set_assigned (a : gmap string string) (w : World) : World :=
  mk_World (files w) (processed_videos_log w) a (youtube_requests w).
Definition set_requests (r : list InsertRequest) (w : World) : World :=
  mk_World (files w) (processed_videos_log w) (_assigned w) r.

(** *** pathlib *)

Module Path.

(** [str(dir / name)]. *)
Definition joinpath (dir name : string) : string := dir +:+ "/" +:+ name.

Fixpoint has_slash (s : string) : bool :=
  match s with
  | EmptyString => false
  | String c rest => Ascii.eqb c "/" || has_slash rest
  end.

(** The file name of [path] when [path] is a direct child of [dir]. *)
Definition child_name (dir path : string) : option string :=
  let pre := dir +:+ "/" in
  if String.prefix pre path then
    let name := String.substring (String.length pre)
                  (String.length path - String.length pre) path in
    if String.eqb name "" || has_slash name then None else Some name
  else None.

(** [name] has the suffix [.mp4] ([Path.suffix == '.mp4']): it ends in
    ".mp4" and something precedes the dot. *)
Definition has_suffix_mp4 (name : string) : bool :=
  endswith name ".mp4" && (5 <=? String.length name)%nat.

(** [Path.stem] of a name with the suffix [.mp4]. *)
Definition stem (name : string) : string :=
  String.substring 0 (String.length name - 4) name.

(** [dir.iterdir()]: names and sizes of the files directly in [dir]. *)
Definition iterdir (dir : string) (fs : gmap string N) : list (string * N) :=
  omap (λ '(p, sz), name ← child_name dir p; Some (name, sz)) (map_to_list fs).

(** [dir.glob("*.mp4")] paired with [stat().st_size]: full paths. *)
Definition matches_mp4 (dir path : string) : bool :=
  match child_name dir path with
  | Some name => endswith name ".mp4"
  | None => false
  end.
Definition glob_mp4 (dir : string) (fs : gmap string N) : list (string * N) :=
  filter (λ entry, matches_mp4 dir entry.1 = true) (map_to_list fs).

(** [path.exists()]. *)
Definition exists_ (path : string) (fs : gmap string N) : bool :=
  bool_decide (is_Some (fs !! path)).

(** [path.unlink()]. *)
Definition unlink (path : string) (fs : gmap string N) : result (gmap string N) :=
  if exists_ path fs then Ok (delete path fs) else Raise (FileNotFoundError path).

(** Paths at or below [dir]. *)
Definition below (dir path : string) : bool :=
  String.eqb path dir || String.prefix (dir +:+ "/") path.

(** [shutil.rmtree(dir)]: every file below [dir] goes. *)
Definition rmtree (dir : string) (fs : gmap string N) : gmap string N :=
  filter (λ entry, below dir entry.1 = false) fs.

End Path.

(** ** Segment allocator (video_assembler.py, class SegmentManager) *)

Module SegmentManager.
Section WithConfig.
Context (cfg : Config).

(** The list comprehension of [_select_valid_segment]: the ".mp4" files
    of the segments folder that reach the size floor. *)
Definition available (w : World) : list (string * N) :=
  filter (λ entry, (MIN_SEGMENT_SIZE_BYTES cfg ≤ entry.2)%N)
         (Path.glob_mp4 (SEGMENTS_FOLDER cfg) (files w)).

(** [_select_valid_segment]; [r] is the draw of [random.choice]. *)
Definition _select_valid_segment (r : nat) (w : World) : result string :=
  match available w with
  | [] => Raise (ValueError "No valid segments available.")
  | _ =>
      match random_choice r (available w) with
      | Some (p, _) => Ok p
      | None => Raise (IndexError "Cannot choose from an empty sequence")
      end
  end.

(** [get_segment]; the body runs under [self._lock], so it is one
    atomic step on the world. *)
Definition get_segment (story_id : string) (r : nat) (w : World)
  : result (string * World) :=
  match _assigned w !! story_id with
  | Some segment => Ok (segment, w)
  | None =>
      segment ← _select_valid_segment r w;
      Ok (segment, set_assigned (<[story_id := segment]> (_assigned w)) w)
  end.

(** [consume_segment], also one atomic step. *)
Definition consume_segment (story_id : string) (w : World) : World :=
  match _assigned w !! story_id with
  | Some path =>
      let w' := set_assigned (delete story_id (_assigned w)) w in
      if Path.exists_ path (files w') then set_files (delete path (files w')) w'
      else w'
  | None => w
  end.

End WithConfig.
End SegmentManager.

(** ** Publish call (youtube_uploader.py) *)

(** The authenticated API client: what executing an insert request yields.
    [Ok (Some id)] is a response carrying an id, [Ok None] a response
    without one, [Raise _] a transport, quota or authorisation error.
    (With [chunksize=-1] the media goes in one chunk, so [next_chunk]
    answers with the response the first time it returns.) *)
Record YouTube := { videos_insert : InsertRequest → result (option string) }.

Module Uploader.
Section WithConfig.
Context (cfg : Config).
(** [datetime.isoformat], a function of the Python library. *)
Context (isoformat : datetime → string).

(** The request body [upload_to_youtube] builds, including the
    conditional [publishAt] entry.  A [datetime] is always truthy, so
    [if publish_at] tests for [None]. *)
Definition build_body (title description : string) (tags : list string)
    (publish_at : option datetime) : Body :=
  {| snippet := {| title := title; description := description; tags := tags;
                   categoryId := YOUTUBE_VIDEO_CATEGORY_ID cfg |};
     status := {| privacyStatus := match publish_at with
                                   | Some _ => "private"
                                   | None => "public"
                                   end;
                  selfDeclaredMadeForKids := false;
                  publishAt := isoformat <$> publish_at |} |}.

(** [upload_to_youtube]; [youtube] is the outcome of
    [get_authenticated_service()] ([None] without valid credentials).
    Returns the video id, or [None] on any failure. *)
Definition upload_to_youtube (youtube : option YouTube) (video_path : string)
    (title description : string) (tags : list string)
    (publish_at : option datetime) (w : World) : option string * World :=
  match youtube with
  | None => (None, w)
  | Some api =>
      let body := build_body title description tags publish_at in
      (* MediaFileUpload opens the file *)
      if negb (Path.exists_ video_path (files w)) then (None, w)
      else
        let request := {| body := body; media_body := video_path |} in
        let w' := set_requests (youtube_requests w ++ [request])%list w in
        match videos_insert api request with
        | Ok video_id => (video_id, w')
        | Raise _ => (None, w')
        end
  end.

End WithConfig.
End Uploader.

(** ** Quality gate (video_segmenter.py, is_segment_high_quality) *)

(** What [cap.read()] yields at a frame position. *)
Inductive read_outcome :=
| Frame (gray : list Z)   (* ret is true; the frame as its grayscale pixels, 0..255 *)
| NoFrame                 (* ret is false *)
| CvRaise (msg : string). (* OpenCV raised while reading or converting *)

(** An opened [cv2.VideoCapture]. *)
Record VideoCapture := {
  isOpened : bool;
  CAP_PROP_FRAME_COUNT : Z;
  read : Z → read_outcome
}.

(** The second component of the gate's answer.  The constructors stand for
    the strings "Validation disabled", "Cannot open video", "Too short",
    "Brightness out of range (avg)", "Insufficient motion (score)", "OK"
    and [str(e)]; a number in a message is kept as the number ([None] is
    nan). *)
Inductive reason :=
| ValidationDisabled
| CannotOpenVideo
| TooShort
| BrightnessOutOfRange (avg : option Q)
| InsufficientMotion (score : Q)
| ReasonOK
| ExceptionText (msg : string).

Module QualityGate.
Section WithConfig.
Context (cfg : Config).
Local Open Scope Z_scope.

Definition Qsum (l : list Q) : Q := foldr Qplus 0%Q l.

(** [np.mean] over exact rationals; the mean of nothing is nan. *)
Definition mean (l : list Q) : option Q :=
  match l with
  | [] => None
  | _ => Some (Qsum l / inject_Z (Z.of_nat (length l)))%Q
  end.

(** [np.mean] of values some of which may be nan. *)
Definition mean_nan (l : list (option Q)) : option Q :=
  vs ← mapM id l; mean vs.

(** [gray.mean()]. *)
Definition brightness (gray : list Z) : option Q := mean (inject_Z <$> gray).

(** [absdiff], [threshold(diff, 25, 255, THRESH_BINARY)] and
    [count_nonzero(thresh) * 100 / thresh.size]. *)
Definition motion_percent (prev_gray gray : list Z) : result Q :=
  if negb (length prev_gray =? length gray)%nat then
    Raise (RuntimeError "Sizes of input arguments do not match")
  else
    let diff := zip_with (λ a b, Z.abs (a - b)) prev_gray gray in
    let thresh := (λ d, if 25 <? d then 255 else 0) <$> diff in
    let nonzero := length (filter (λ t, t ≠ 0) thresh) in
    match thresh with
    | [] => Raise (RuntimeError "division by zero")
    | _ => Ok (inject_Z (Z.of_nat nonzero * 100) / inject_Z (Z.of_nat (length thresh)))%Q
    end.

(** [np.linspace(0, stop, num, dtype=int)], computed exactly: the
    [num] evenly spaced positions from 0 to [stop], truncated. *)
Definition linspace_int (stop num : Z) : result (list Z) :=
  if num <? 0 then Raise (ValueError "Number of samples must be non-negative.")
  else if num =? 1 then Ok [0]
  else Ok ((λ i, (i * stop) `quot` (num - 1)) <$> seqZ 0 num).

(** The sampling loop.  A position whose read reports failure is
    skipped by [continue]. *)
Fixpoint sample_frames (cap : VideoCapture) (frame_indices : list Z)
    (prev_gray : option (list Z)) (brightness_values : list (option Q))
    (motion_scores : list Q) : result (list (option Q) * list Q) :=
  match frame_indices with
  | [] => Ok (brightness_values, motion_scores)
  | idx :: rest =>
      match read cap idx with
      | CvRaise msg => Raise (RuntimeError msg)
      | NoFrame => sample_frames cap rest prev_gray brightness_values motion_scores
      | Frame gray =>
          let brightness_values := (brightness_values ++ [brightness gray])%list in
          motion_scores ←
            match prev_gray with
            | Some prev =>
                motion_percent ← motion_percent prev gray;
                Ok (motion_scores ++ [motion_percent])%list
            | None => Ok motion_scores
            end;
          sample_frames cap rest (Some gray) brightness_values motion_scores
      end
  end.

(** [MIN_BRIGHTNESS <= avg_brightness <= MAX_BRIGHTNESS]; false on nan. *)
Definition in_band (avg : option Q) : bool :=
  match avg with
  | Some a => Qle_bool (inject_Z (MIN_BRIGHTNESS cfg)) a
              && Qle_bool a (inject_Z (MAX_BRIGHTNESS cfg))
  | None => false
  end.

(** The verdict computed from the collected measurements. *)
Definition judge (brightness_values : list (option Q)) (motion_scores : list Q)
  : bool * reason :=
  let avg_brightness := mean_nan brightness_values in
  if negb (in_band avg_brightness) then (false, BrightnessOutOfRange avg_brightness)
  else
    match mean motion_scores with
    | Some m =>
        if negb (Qle_bool (MIN_MOTION_SCORE cfg) m) then (false, InsufficientMotion m)
        else (true, ReasonOK)
    | None => (true, ReasonOK)
    end.

(** The body of the [try] block. *)
Definition evaluate (cap : VideoCapture) : result (bool * reason) :=
  if negb (isOpened cap) then Ok (false, CannotOpenVideo)
  else
    let frame_count := CAP_PROP_FRAME_COUNT cap in
    if frame_count <? VALIDATION_FRAME_SAMPLES cfg then Ok (false, TooShort)
    else
      frame_indices ← linspace_int (frame_count - 1) (VALIDATION_FRAME_SAMPLES cfg);
      '(brightness_values, motion_scores) ← sample_frames cap frame_indices None [] [];
      Ok (judge brightness_values motion_scores).

(** [is_segment_high_quality]; [cap] is [cv2.VideoCapture(str(segment_path))]. *)
Definition is_segment_high_quality (cap : VideoCapture) : bool * reason :=
  if negb (ENABLE_QUALITY_VALIDATION cfg) then (true, ValidationDisabled)
  else
    match evaluate cap with
    | Ok verdict => verdict
    | Raise e => (false, ExceptionText (str_of_exn e))
    end.

End WithConfig.
End QualityGate.

(** ** Commands on the world *)

(** A command may change the world and then return or raise; what it
    changed before raising stays changed. *)
Definition io (A : Type) : Type := World → result A * World.

#[export] Instance io_ret : MRet io := λ A a w, (Ok a, w).
#[export] Instance io_bind : MBind io := λ A B f m w,
  match m w with
  | (Ok a, w') => f a w'
  | (Raise e, w') => (Raise e, w')
  end.

Definition lift {A} (r : result A) : io A := λ w, (r, w).
Definition get_world : io World := λ w, (Ok w, w).
Definition modify (f : World → World) : io unit := λ w, (Ok tt, f w).

(** [for x in l: body(x)], stopping at the first exception. *)
Fixpoint for_each {A} (l : list A) (body : A → io unit) : io unit :=
  match l with
  | [] => mret tt
  | x :: rest => _ ← body x; for_each rest body
  end.

(** [try: c  except Exception: pass] (the handler only logs). *)
Definition try_except (c : io unit) : World → World := λ w, (c w).2.

(** The external programs and services the maintenance code drives. *)
Record VideoEntry := { id : string; duration : Z }.

Record Env := {
  (** [get_video_duration(path)]: the duration ffmpeg reports, 0 when it
      reports none; raises when ffmpeg cannot be started *)
  get_video_duration : string → result Q;
  (** [ffmpeg -y -ss start -i src -t length -c copy dst]: the size of the
      file it writes at [dst], [None] when it writes nothing *)
  ffmpeg_copy : Q → string → Q → string → result (option N);
  (** [cv2.VideoCapture(path)] *)
  cv2_VideoCapture : string → VideoCapture;
  (** [ydl.extract_info(channel_url)["entries"]]; [None] is a null entry *)
  channel_entries : string → result (list (option VideoEntry));
  (** [ydl.download] of one video: the size of the file written at the
      output path, [None] when nothing is written *)
  ydl_download : string → result (option N);
  (** [random.sample(channels, len(channels))] and [random.shuffle] *)
  sample_channels : list string → list string;
  shuffle : list VideoEntry → list VideoEntry;
  (** the order in which a Python [set] of strings is iterated *)
  set_iteration : gset string → list string
}.

(** [set(Path(PROCESSED_VIDEOS_LOG).read_text().splitlines())], or the
    empty set when the log does not exist. *)
Definition load_processed_ids (w : World) : gset string :=
  match processed_videos_log w with
  | Some content => list_to_set (splitlines content)
  | None => ∅
  end.

(** ** Segmentation (video_segmenter.py, process_new_videos_into_segments) *)

Module Segmenter.
Section WithConfig.
Context (cfg : Config) (env : Env).

Definition run_ffmpeg (start : Q) (src : string) (len : Q) (dst : string) : io unit :=
  written ← lift (ffmpeg_copy env start src len dst);
  match written with
  | Some sz => modify (λ w, set_files (<[dst := sz]> (files w)) w)
  | None => mret tt
  end.

Definition unlink (path : string) : io unit := λ w,
  match Path.unlink path (files w) with
  | Ok fs => (Ok tt, set_files fs w)
  | Raise e => (Raise e, w)
  end.

(** [with open(PROCESSED_VIDEOS_LOG, "a") as f: f.write(stem + "\n")] *)
Definition mark_as_processed (stem : string) : io unit :=
  modify (λ w, set_log (Some (default "" (processed_videos_log w) +:+ stem +:+ LF)) w).

(** The "Trim video if enabled" block.  [None] is the [continue] taken
    for a video too short after trimming; otherwise the input video
    to segment. *)
Definition trim_video (video_path stem : string) : io (option string) :=
  if ENABLE_VIDEO_TRIMMING cfg then
    duration ← lift (get_video_duration env video_path);
    let trimmed_duration :=
      (duration - inject_Z (TRIM_START_SECONDS cfg) - inject_Z (TRIM_END_SECONDS cfg))%Q in
    if negb (Qle_bool (inject_Z (SEGMENT_DURATION_SECONDS cfg)) trimmed_duration) then
      mret None
    else
      let trimmed_path := Path.joinpath (RAW_VIDEOS_FOLDER cfg) (stem +:+ "_trimmed.mp4") in
      _ ← run_ffmpeg (inject_Z (TRIM_START_SECONDS cfg)) video_path trimmed_duration
            trimmed_path;
      w ← get_world;
      mret (Some (if Path.exists_ trimmed_path (files w) then trimmed_path
                  else video_path))
  else mret (Some video_path).

(** One turn of the extraction loop, for segment number [i + 1]. *)
Definition extract_segment (input_video stem : string) (i : Z) : io unit :=
  let segment_path :=
    Path.joinpath (SEGMENTS_FOLDER cfg) (stem +:+ "_seg" +:+ pretty (i + 1)%Z +:+ ".mp4") in
  let start_time := inject_Z (i * SEGMENT_DURATION_SECONDS cfg) in
  _ ← run_ffmpeg start_time input_video (inject_Z (SEGMENT_DURATION_SECONDS cfg))
        segment_path;
  let '(is_valid, _) :=
    QualityGate.is_segment_high_quality cfg (cv2_VideoCapture env segment_path) in
  if negb is_valid then unlink segment_path else mret tt.

(** The body of the [try] block for one raw video (a file name in the
    raw folder). *)
Definition process_video (video_name : string) : io unit :=
  let video_path := Path.joinpath (RAW_VIDEOS_FOLDER cfg) video_name in
  let stem := Path.stem video_name in
  trimmed ← trim_video video_path stem;
  match trimmed with
  | None => mret tt
  | Some input_video =>
      video_duration ← lift (get_video_duration env input_video);
      num_segments ←
        lift (if (SEGMENT_DURATION_SECONDS cfg =? 0)%Z
              then Raise (RuntimeError "division by zero")
              else Ok (Qfloor (video_duration / inject_Z (SEGMENT_DURATION_SECONDS cfg))));
      _ ← for_each (seqZ 0 num_segments) (extract_segment input_video stem);
      (* Cleanup *)
      w ← get_world;
      _ ← (if negb (String.eqb input_video video_path)
              && Path.exists_ input_video (files w)
           then unlink input_video else mret tt);
      _ ← unlink video_path;
      (* Mark as processed *)
      mark_as_processed stem
  end.

(** The raw videos still to process: [.mp4] files of the raw folder
    whose stem is not in the log. *)
Definition videos_to_process (w : World) : list string :=
  let processed_ids := load_processed_ids w in
  filter (λ name, (Path.stem name ∉ processed_ids) ∧ Path.has_suffix_mp4 name = true)
         ((Path.iterdir (RAW_VIDEOS_FOLDER cfg) (files w)).*1).

(** [process_new_videos_into_segments]: each video in its own
    [try]/[except], so a failure on one does not stop the batch. *)
Definition process_new_videos_into_segments (w : World) : World :=
  foldl (λ w video_name, try_except (process_video video_name) w)
        w (videos_to_process w).

End WithConfig.
End Segmenter.

(** ** Raw-video download (video_downloader.py, download_new_source_videos) *)

Module Downloader.
Section WithConfig.
Context (cfg : Config) (env : Env).

(** The loop state: the [downloaded] list and the [processed_ids] set
    (the disk is in the world). *)
Record Hunt := { downloaded : list string; processed_ids : gset string }.

(** Scan of one channel: its entries that are long enough and not yet
    processed; a failing channel contributes nothing. *)
Definition scan_channel (min_duration : Z) (seen : gset string)
    (channel_id : string) : list VideoEntry :=
  match channel_entries env channel_id with
  | Ok entries =>
      filter (λ video, (min_duration < duration video)%Z ∧ (id video ∉ seen))
             (omap (λ v, v) entries)
  | Raise _ => []
  end.

(** One candidate of the "Shuffle and download" loop. *)
Definition try_download (num_to_download : nat) (st : Hunt * World)
    (video : VideoEntry) : Hunt * World :=
  let '(h, w) := st in
  if (num_to_download <=? length (downloaded h))%nat then st
  else
    let video_id := id video in
    let output_path := Path.joinpath (RAW_VIDEOS_FOLDER cfg) (video_id +:+ ".mp4") in
    match ydl_download env video_id with
    | Raise _ => st
    | Ok written =>
        let w' := match written with
                  | Some sz => set_files (<[output_path := sz]> (files w)) w
                  | None => w
                  end in
        match files w' !! output_path with
        | Some sz =>
            if (1024 <? sz)%N then
              ({| downloaded := (downloaded h ++ [output_path])%list;
                  processed_ids := processed_ids h ∪ {[video_id]} |}, w')
            else (h, w')
        | None => (h, w')
        end
    end.

(** One hunting tier. *)
Definition hunt_tier (num_to_download : nat) (channels : list string)
    (st : Hunt * World) (tier : string * Z) : Hunt * World :=
  if (num_to_download <=? length (downloaded st.1))%nat then st
  else
    let min_duration :=
      if ENABLE_VIDEO_TRIMMING cfg
      then (tier.2 + (TRIM_START_SECONDS cfg + TRIM_END_SECONDS cfg))%Z
      else tier.2 in
    let candidates :=
      mbind (scan_channel min_duration (processed_ids st.1)) channels in
    foldl (try_download num_to_download) st (shuffle env candidates).

(** "Save processed IDs": the log is rewritten from the set. *)
Definition save_processed_ids (ids : gset string) (w : World) : World :=
  if decide (ids = ∅) then w
  else set_log (Some (join LF (set_iteration env ids))) w.

(** [download_new_source_videos(num_to_download)]. *)
Definition download_new_source_videos (num_to_download : nat) (w : World) : World :=
  let start := {| downloaded := []; processed_ids := load_processed_ids w |} in
  let channels := sample_channels env (CURATED_CHANNEL_IDS cfg) in
  let '(h, w') := foldl (hunt_tier num_to_download channels) (start, w) (HUNTING_TIERS cfg) in
  save_processed_ids (processed_ids h) w'.

End WithConfig.
End Downloader.

(** ** Control loop (main.py, main_loop): publishing and cleanup phase *)

Module MainLoop.
Section WithConfig.
Context (cfg : Config) (isoformat : datetime → string).

(** The job in flight when the publishing phase starts. *)
Record Job := {
  story_id : string;
  story_folder : string;
  output_video_path : string;
  yt_title : string;
  yt_desc : string;
  yt_tags : list string
}.

(** The scheduling decision of the publishing phase: the value of
    [publish_time_for_api] handed to the uploader ([None] means publish
    now).  [current_time_in_tz] is the clock reading taken when the
    video is ready; [clock_at_reschedule] is the reading that
    [get_next_publish_time] takes when it is called again.  The quotient
    [total_seconds() / 60] is taken exactly; at microsecond resolution
    the rounding of Python's floats cannot move it across an integer
    tolerance of realistic size. *)
Definition publish_time_for_api (target_publish_time current_time_in_tz
    clock_at_reschedule : datetime) : result (option datetime) :=
  if geb current_time_in_tz target_publish_time then
    let time_passed := sub current_time_in_tz target_publish_time in
    if Qle_bool (total_seconds time_passed / 60)
                (inject_Z (PUBLISH_TOLERANCE_MINUTES cfg)) then
      Ok None
    else
      new_target_time ← get_next_publish_time (PUBLISHING_SCHEDULE cfg) clock_at_reschedule;
      Ok (Some new_target_time)
  else Ok (Some target_publish_time).

(** [output_video_path.exists() and output_video_path.stat().st_size > 1024] *)
Definition output_ready (job : Job) (w : World) : bool :=
  match files w !! output_video_path job with
  | Some st_size => (1024 <? st_size)%N
  | None => false
  end.

(** The publishing and cleanup phase.  An exception leaves the phase
    for the handler of the loop. *)
Definition publish_and_cleanup (youtube : option YouTube) (job : Job)
    (target_publish_time current_time_in_tz clock_at_reschedule : datetime)
    (w : World) : result World :=
  if output_ready job w then
    publish_at ← publish_time_for_api target_publish_time current_time_in_tz
                   clock_at_reschedule;
    let '(video_id, w1) :=
      Uploader.upload_to_youtube cfg isoformat youtube (output_video_path job)
        (yt_title job) (yt_desc job) (yt_tags job) publish_at w in
    if truthy video_id then
      let w2 := SegmentManager.consume_segment (story_id job) w1 in
      Ok (set_files (Path.rmtree (story_folder job) (files w2)) w2)
    else Ok w1
  else Ok w.

End WithConfig.
End MainLoop.

(** ** Vocabulary of the specification *)

Module Spec.
Local Open Scope Z_scope.

(** *** Scheduler *)

(** A slot spelled the way config.py spells it: two digits, a colon, two
    digits, with the hour below 24 and the minute below 60. *)
Definition is_hh_mm (s : string) : bool :=
  match s with
  | String a (String b (String c (String d (String e EmptyString)))) =>
      is_digit a && is_digit b && Ascii.eqb c ":" && is_digit d && is_digit e
      && (10 * digit_value a + digit_value b <? 24)
      && (10 * digit_value d + digit_value e <? 60)
  | _ => false
  end.

(** A string the code reads as a time of day, whatever its spelling. *)
Definition is_slot (s : string) : Prop :=
  ∃ h m, parse_hour_minute s = Ok (h, m) ∧ 0 <= h < 24 ∧ 0 <= m < 60.

(** The occurrence of slot [s] on the day with ordinal [day], in the
    timezone of [now]. *)
Definition occurrence (now : datetime) (day : Z) (s : string) : option datetime :=
  match parse_hour_minute s with
  | Ok (h, m) =>
      match replace (mk_datetime day 0 0 0 0 (utcoffset now)) h m 0 0 with
      | Ok t => Some t
      | Raise _ => None
      end
  | Raise _ => None
  end.

Definition is_occurrence (schedule : list string) (now t : datetime) : Prop :=
  ∃ s day, s ∈ schedule ∧ occurrence now day s = Some t.

(** No slot of the schedule occurs later today. *)
Definition none_left_today (schedule : list string) (now : datetime) : Prop :=
  ∀ s t, s ∈ schedule → occurrence now (toordinal now) s = Some t → ltb now t = false.

(** What the specification asks of [nextSlot(now)]: it returns a slot
    occurrence strictly after [now], the least such one; it lies today,
    or tomorrow when nothing is left today. *)
Definition next_slot_ok (schedule : list string) (now : datetime) : Prop :=
  ∃ t, get_next_publish_time schedule now = Ok t
     ∧ ltb now t = true
     ∧ is_occurrence schedule now t
     ∧ (∀ t', is_occurrence schedule now t' → ltb now t' = true → leb t t' = true)
     ∧ (toordinal t = toordinal now
        ∨ (toordinal t = toordinal now + 1 ∧ none_left_today schedule now)).

(** Minutes by which [completion] is past [target]. *)
Definition overrun_minutes (target completion : datetime) : Q :=
  (total_seconds (sub completion target) / 60)%Q.

(** What the specification asks of [decidePublishTiming], for the
    decision [d] taken at [completion]: early completion keeps the
    target, an overrun within the tolerance publishes now, a larger one
    moves to the slot that follows the clock reading [rescheduled_at].
    The specification takes [rescheduled_at] to be [completion] itself. *)
Definition publish_decision_ok (cfg : Config) (target completion rescheduled_at : datetime)
    (d : result (option datetime)) : Prop :=
  (ltb completion target = true → d = Ok (Some target))
  ∧ (geb completion target = true →
     (overrun_minutes target completion <= inject_Z (PUBLISH_TOLERANCE_MINUTES cfg))%Q →
     d = Ok None)
  ∧ (geb completion target = true →
     (inject_Z (PUBLISH_TOLERANCE_MINUTES cfg) < overrun_minutes target completion)%Q →
     d = (t ← get_next_publish_time (PUBLISHING_SCHEDULE cfg) rescheduled_at; Ok (Some t))).

(** *** Allocator *)

(** The size-valid segments of the pool that no story holds. *)
Definition unassigned (cfg : Config) (w : World) : list (string * N) :=
  filter (λ entry, entry.1 ∉ (map_to_list (_assigned w)).*2)
         (SegmentManager.available cfg w).

(** A file of the segments folder below the size floor. *)
Definition undersized (cfg : Config) (w : World) (path : string) : Prop :=
  ∃ st_size, files w !! path = Some st_size ∧ (st_size < MIN_SEGMENT_SIZE_BYTES cfg)%N.

(** A size-valid segment of the pool. *)
Definition size_valid (cfg : Config) (w : World) (path : string) : Prop :=
  ∃ st_size, files w !! path = Some st_size
           ∧ Path.matches_mp4 (SEGMENTS_FOLDER cfg) path = true
           ∧ (MIN_SEGMENT_SIZE_BYTES cfg ≤ st_size)%N.

(** Every segment held by a story is still a size-valid file of the pool. *)
Definition held_on_disk (cfg : Config) (w : World) : Prop :=
  ∀ story_id segment, _assigned w !! story_id = Some segment → size_valid cfg w segment.

(** A call on the allocator, and the segments a run of calls hands out,
    the disk being touched by nobody else in between. *)
Inductive call :=
| Assign (story_id : string) (r : nat)
| Consume (story_id : string).

Fixpoint handed_out (cfg : Config) (calls : list call) (w : World) : list string :=
  match calls with
  | [] => []
  | Assign story_id r :: rest =>
      match SegmentManager.get_segment cfg story_id r w with
      | Ok (segment, w') => segment :: handed_out cfg rest w'
      | Raise _ => handed_out cfg rest w
      end
  | Consume story_id :: rest =>
      handed_out cfg rest (SegmentManager.consume_segment story_id w)
  end.

(** *** Deduplication log *)

(** The ids the log holds, as the code reads them back. *)
Definition logged (w : World) (video_id : string) : Prop :=
  video_id ∈ load_processed_ids w.

(** The time of day a slot string denotes, in minutes after midnight. *)
Definition minutes_of_day (s : string) : Z :=
  match parse_hour_minute s with
  | Ok (h, m) => h * 60 + m
  | Raise _ => 0
  end.


(** The order of slots by time of day. *)
Definition earlier_slot (a b : string) : Prop := minutes_of_day a <= minutes_of_day b.


(** *** Quality gate *)

(** The read at position [idx] does not merely report failure. *)
Definition readable (cap : VideoCapture) (idx : Z) : Prop := read cap idx ≠ NoFrame.
#[export] Instance readable_dec cap idx : Decision (readable cap idx).
Proof. unfold readable. destruct (read cap idx); [left | right | left]; congruence. Defined.


(** A string without line-break characters, as every id is. *)
Fixpoint no_linebreak (s : string) : bool :=
  match s with
  | EmptyString => true
  | String c rest => negb (is_linebreak c) && no_linebreak rest
  end.

End Spec.

(** ** Concrete worlds used in the examples *)

Module Scenario.
Local Open Scope Z_scope.

(** A pool of three full-size segments and one truncated file. *)
Definition pool : World :=
  mk_World (<["assets/segments/a_seg1.mp4" := 200000%N]>
           (<["assets/segments/b_seg1.mp4" := 300000%N]>
           (<["assets/segments/c_seg1.mp4" := 400000%N]>
           (<["assets/segments/d_seg1.mp4" := 100%N]> ∅))))
           None ∅ [].

(** A pool holding nothing but the truncated file. *)
Definition starved_pool : World :=
  mk_World (<["assets/segments/d_seg1.mp4" := 100%N]> ∅) None ∅ [].

(** A finished job: the rendered video and its audio lie in the story
    folder, and the story holds segment a_seg1. *)
Definition job : MainLoop.Job := {|
  MainLoop.story_id := "1k2j3h";
  MainLoop.story_folder := "assets/sessions/20250301_070000/story_1k2j3h";
  MainLoop.output_video_path :=
    "assets/sessions/20250301_070000/story_1k2j3h/1k2j3h_final.mp4";
  MainLoop.yt_title := "A story";
  MainLoop.yt_desc := "Told in under a minute";
  MainLoop.yt_tags := ["reddit"; "stories"; "askreddit"; "storytime"; "tifu"]
|}.

Definition rendered : World :=
  mk_World (<["assets/segments/a_seg1.mp4" := 200000%N]>
           (<["assets/segments/b_seg1.mp4" := 300000%N]>
           (<["assets/sessions/20250301_070000/story_1k2j3h/audio.wav" := 900000%N]>
           (<["assets/sessions/20250301_070000/story_1k2j3h/1k2j3h_final.mp4" := 7000000%N]>
           (<["assets/sessions/20250301_070000/session_log.txt" := 4000%N]> ∅)))))
           None {["1k2j3h" := "assets/segments/a_seg1.mp4"]} [].

(** A service that accepts every upload, and one that refuses them. *)
Definition youtube_up : YouTube := {| videos_insert := λ _, Ok (Some "dQw4w9WgXcQ") |}.
Definition youtube_down : YouTube :=
  {| videos_insert := λ _, Raise (RuntimeError "HttpError 403: quotaExceeded") |}.

(** 1 March 2025 (ordinal 739311) in Europe/Madrid, UTC+1. *)
Definition at_ (h m s us : Z) : datetime := mk_datetime 739311 h m s us 60.
Definition tomorrow_at (h m s us : Z) : datetime := mk_datetime 739312 h m s us 60.

(** A stand-in for [isoformat] that prints the time of day only. *)
Definition clock_text (t : datetime) : string :=
  pretty (hour t) +:+ ":" +:+ pretty (minute t).

(** Five-frame clips of one pixel per frame, alternating between two mid
    grey levels.  In the first the read at position 0 reports failure; in
    the second the read at position 3 raises. *)
Definition clip_with_unreadable_frame : VideoCapture := {|
  isOpened := true;
  CAP_PROP_FRAME_COUNT := 5;
  read := λ idx, if idx =? 0 then NoFrame
                 else if Z.even idx then Frame [200] else Frame [100]
|}.

Definition clip_with_broken_frame : VideoCapture := {|
  isOpened := true;
  CAP_PROP_FRAME_COUNT := 5;
  read := λ idx, if idx =? 3 then CvRaise "Unknown C++ exception from OpenCV code"
                 else if Z.even idx then Frame [200] else Frame [100]
|}.

Definition unopened : VideoCapture :=
  {| isOpened := false; CAP_PROP_FRAME_COUNT := 0; read := λ _, NoFrame |}.

(** Tools and services: ffmpeg reports 100 s for short.mp4, 200 s for
    intro.mp4 and 140 s for its trimmed copy, and writes every file it is
    asked for; OpenCV opens nothing; the first curated channel lists one
    50-minute video, "abc", which downloads fine. *)
Definition tools : Env := {|
  get_video_duration := λ path,
    if String.eqb path "assets/raw_videos/short.mp4" then Ok (100 # 1)
    else if String.eqb path "assets/raw_videos/intro.mp4" then Ok (200 # 1)
    else if String.eqb path "assets/raw_videos/intro_trimmed.mp4" then Ok (140 # 1)
    else Ok 0%Q;
  ffmpeg_copy := λ _ _ _ _, Ok (Some 500000%N);
  cv2_VideoCapture := λ _, unopened;
  channel_entries := λ channel_id,
    if String.eqb channel_id "UC7eAfUjR9gdIjoaoQaS0W-A"
    then Ok [Some {| id := "abc"; duration := 3000 |}]
    else Ok [];
  ydl_download := λ _, Ok (Some 9000000%N);
  sample_channels := λ channels, channels;
  shuffle := λ candidates, candidates;
  set_iteration := elements
|}.

(** A raw folder holding two videos put there by hand; no log yet. *)
Definition raw_library : World :=
  mk_World (<["assets/raw_videos/short.mp4" := 5000000%N]>
           (<["assets/raw_videos/intro.mp4" := 8000000%N]> ∅))
           None ∅ [].


(** The configuration of the specification's example: two slots a day. *)
Definition two_slots : Config := {|
  PUBLISHING_SCHEDULE := ["08:00"; "20:00"];
  PUBLISH_TOLERANCE_MINUTES := 30;
  YOUTUBE_VIDEO_CATEGORY_ID := YOUTUBE_VIDEO_CATEGORY_ID default_config;
  RAW_VIDEOS_FOLDER := RAW_VIDEOS_FOLDER default_config;
  SEGMENTS_FOLDER := SEGMENTS_FOLDER default_config;
  ENABLE_VIDEO_TRIMMING := ENABLE_VIDEO_TRIMMING default_config;
  TRIM_START_SECONDS := TRIM_START_SECONDS default_config;
  TRIM_END_SECONDS := TRIM_END_SECONDS default_config;
  MAX_RAW_VIDEOS_IN_LIBRARY := MAX_RAW_VIDEOS_IN_LIBRARY default_config;
  HUNTING_TIERS := HUNTING_TIERS default_config;
  CURATED_CHANNEL_IDS := CURATED_CHANNEL_IDS default_config;
  SEGMENT_DURATION_SECONDS := SEGMENT_DURATION_SECONDS default_config;
  MIN_SEGMENT_SIZE_BYTES := MIN_SEGMENT_SIZE_BYTES default_config;
  ENABLE_QUALITY_VALIDATION := ENABLE_QUALITY_VALIDATION default_config;
  VALIDATION_FRAME_SAMPLES := VALIDATION_FRAME_SAMPLES default_config;
  MIN_BRIGHTNESS := MIN_BRIGHTNESS default_config;
  MAX_BRIGHTNESS := MAX_BRIGHTNESS default_config;
  MIN_MOTION_SCORE := MIN_MOTION_SCORE default_config
|}.

End Scenario.

(** ** More of the code: main.py besides the publishing phase *)

(** Further fields of config.py. *)
Record Settings := {
  SESSIONS_FOLDER : string;
  MAX_SESSIONS_TO_KEEP : nat;
  MIN_SEGMENTS_IN_LIBRARY : nat
}.

Definition default_settings : Settings := {|
  SESSIONS_FOLDER := "assets/sessions";
  MAX_SESSIONS_TO_KEEP := 5;
  MIN_SEGMENTS_IN_LIBRARY := 10
|}.

Module Names.

(** [name.rfind('.')]. *)
Fixpoint rfind_dot (name : string) : option nat :=
  match name with
  | EmptyString => None
  | String c rest =>
      match rfind_dot rest with
      | Some i => Some (S i)
      | None => if Ascii.eqb c "." then Some 0%nat else None
      end
  end.

(** [Path.suffix]: the last dot of the name and what follows it, unless
    the dot is the first or the last character. *)
Definition suffix (name : string) : string :=
  match rfind_dot name with
  | Some i =>
      if (0 <? i)%nat && (i <? String.length name - 1)%nat
      then String.substring i (String.length name - i) name
      else ""
  | None => ""
  end.

(** [str.lower] on Latin-1: A-Z and the accented capitals. *)
Definition lower_char (c : ascii) : ascii :=
  let n := nat_of_ascii c in
  if ((65 <=? n) && (n <=? 90))%nat
     || ((192 <=? n) && (n <=? 222) && negb (n =? 215))%nat
  then ascii_of_nat (n + 32) else c.

Fixpoint lower (s : string) : string :=
  match s with
  | EmptyString => EmptyString
  | String c rest => String (lower_char c) (lower rest)
  end.

(** [strip_prefix pre s] is [Some rest] when [s = pre +:+ rest]. *)
Fixpoint strip_prefix (pre s : string) : option string :=
  match pre with
  | EmptyString => Some s
  | String a pre' =>
      match s with
      | EmptyString => None
      | String b s' => if Ascii.eqb a b then strip_prefix pre' s' else None
      end
  end.

(** The part of [s] before its first slash, when it has one. *)
Fixpoint before_slash (s : string) : option string :=
  match s with
  | EmptyString => None
  | String c rest =>
      if Ascii.eqb c "/" then Some EmptyString
      else d ← before_slash rest; Some (String c d)
  end.

(** The name of the subdirectory of [dir] that [path] lies in. *)
Definition subdir_of (dir path : string) : option string :=
  rest ← strip_prefix (dir +:+ "/") path;
  d ← before_slash rest;
  if String.eqb d "" then None else Some d.

(** The subdirectories of [dir]: [d for d in dir.iterdir() if d.is_dir()].
    A directory is known by the files below it. *)
Definition subdirs (dir : string) (fs : gmap string N) : list string :=
  remove_dups (omap (subdir_of dir) (map_to_list fs).*1).

End Names.

Module Inventory.
Section WithConfig.
Context (cfg : Config) (hk : Settings) (env : Env).

(** [has_video_files(directory)]: despite the name, a count. *)
Definition has_video_files (directory : string) (w : World) : nat :=
  length (filter (λ entry, Names.lower (Names.suffix entry.1) ∈ [".mp4"; ".mov"; ".mkv"])
                 (Path.iterdir directory (files w))).

(** [get_segment_count()]. *)
Definition get_segment_count (w : World) : nat :=
  length (filter (λ entry, Path.has_suffix_mp4 entry.1 = true)
                 (Path.iterdir (SEGMENTS_FOLDER cfg) (files w))).

(** [maintenance_and_setup(logger)]. *)
Definition maintenance_and_setup (w : World) : World :=
  let videos_to_download :=
    (MAX_RAW_VIDEOS_IN_LIBRARY cfg - Z.of_nat (has_video_files (RAW_VIDEOS_FOLDER cfg) w))%Z in
  let w1 :=
    if (0 <? videos_to_download)%Z
    then Downloader.download_new_source_videos cfg env (Z.to_nat videos_to_download) w
    else w in
  if (0 <? has_video_files (RAW_VIDEOS_FOLDER cfg) w1)%nat
  then Segmenter.process_new_videos_into_segments cfg env w1
  else w1.

(** The maintenance step of the loop: run only when the inventory is
    below the floor. *)
Definition maintain (w : World) : World :=
  if (get_segment_count w <? MIN_SEGMENTS_IN_LIBRARY hk)%nat
  then maintenance_and_setup w else w.

End WithConfig.
End Inventory.

Module Sessions.
Section WithConfig.
Context (hk : Settings).

(** [re.match(r"^\d{8}_\d{6}$", name)]: eight digits, an underscore, six
    digits; [$] also matches just before one final newline. *)
Fixpoint digits_then (n : nat) (s : string) : option string :=
  match n with
  | O => Some s
  | S n' =>
      match s with
      | String c rest => if is_digit c then digits_then n' rest else None
      | EmptyString => None
      end
  end.

Definition session_pattern (name : string) : bool :=
  match digits_then 8 name with
  | Some (String c rest) =>
      Ascii.eqb c "_" &&
      match digits_then 6 rest with
      | Some tail => String.eqb tail "" || String.eqb tail LF
      | None => false
      end
  | _ => false
  end.

(** [valid_sessions]: the session directories, newest name first.  The
    names of one directory are distinct, so sorting in reverse is the
    ascending sort reversed. *)
Definition valid_sessions (w : World) : list string :=
  reverse (sorted (filter (λ name, session_pattern name = true)
                          (Names.subdirs (SESSIONS_FOLDER hk) (files w)))).

Definition to_delete (w : World) : list string :=
  drop (MAX_SESSIONS_TO_KEEP hk) (valid_sessions w).

(** [clean_old_sessions()]. *)
Definition clean_old_sessions (w : World) : World :=
  foldl (λ w session_dir,
           set_files (Path.rmtree (Path.joinpath (SESSIONS_FOLDER hk) session_dir) (files w)) w)
        w (to_delete w).

End WithConfig.
End Sessions.

Module Cooldown.
Section WithConfig.
Context (cfg : Config).

(** The wait phase of [main_loop]:
    [max(60, time_to_next_slot.total_seconds() - 3600)], in seconds.
    [now_in_tz] is the clock reading of the phase, [clock_at_slot] the one
    [get_next_publish_time] takes right after it. *)
Definition sleep_duration (now_in_tz clock_at_slot : datetime) : result Q :=
  next_slot_after_job ← get_next_publish_time (PUBLISHING_SCHEDULE cfg) clock_at_slot;
  let time_to_next_slot := sub next_slot_after_job now_in_tz in
  let rest := (total_seconds time_to_next_slot - 3600)%Q in
  Ok (if Qle_bool rest 60 then 60%Q else rest).

End WithConfig.
End Cooldown.

(** ** Jobs on the allocator *)

Module Jobs.
Section WithConfig.
Context (cfg : Config).

(** What a job that gets published does with the allocator: it is given
    a segment and, after the upload, consumes it. *)
Definition assign_and_consume (story_id : string) (r : nat) (w : World)
  : result (string * World) :=
  '(segment, w') ← SegmentManager.get_segment cfg story_id r w;
  Ok (segment, SegmentManager.consume_segment story_id w').

(** A sequence of such jobs, one after the other; the segments they were
    given, first job first. *)
Fixpoint serve (jobs : list (string * nat)) (w : World) : result (list string * World) :=
  match jobs with
  | [] => Ok ([], w)
  | (story_id, r) :: rest =>
      '(segment, w') ← assign_and_consume story_id r w;
      '(segments, w'') ← serve rest w';
      Ok (segment :: segments, w'')
  end.

End WithConfig.
End Jobs.

(** ** What maintenance may touch *)

Module Library.
Section WithConfig.
Context (cfg : Config).

(** [path] lies neither in the raw folder nor in the segments folder. *)
Definition outside (path : string) : Prop :=
  String.prefix (RAW_VIDEOS_FOLDER cfg +:+ "/") path = false
  ∧ String.prefix (SEGMENTS_FOLDER cfg +:+ "/") path = false.

(** [w'] differs from [w] at most in files of the two folders. *)
Definition untouched (w w' : World) : Prop :=
  processed_videos_log w' = processed_videos_log w
  ∧ _assigned w' = _assigned w
  ∧ youtube_requests w' = youtube_requests w
  ∧ ∀ path, outside path → files w' !! path = files w !! path.

(** As [untouched], but the log may have grown at its end. *)
Definition log_extended (w w' : World) : Prop :=
  (∃ suffix, default "" (processed_videos_log w')
             = default "" (processed_videos_log w) +:+ suffix)
  ∧ (is_Some (processed_videos_log w) → is_Some (processed_videos_log w'))
  ∧ _assigned w' = _assigned w
  ∧ youtube_requests w' = youtube_requests w
  ∧ ∀ path, outside path → files w' !! path = files w !! path.

End WithConfig.
End Library.

(** ** Further worlds for the examples *)

Module Housekeeping.

(** Seven session directories, a directory that is not a session, and a
    segment elsewhere. *)
Definition seven_sessions : World := {|
  files := list_to_map [
    ("assets/sessions/20240103_120000/session_log.txt", 10%N);
    ("assets/sessions/20240101_120000/session_log.txt", 10%N);
    ("assets/sessions/20240107_120000/session_log.txt", 10%N);
    ("assets/sessions/20240107_120000/audio/story.wav", 5000%N);
    ("assets/sessions/20240102_120000/session_log.txt", 10%N);
    ("assets/sessions/20240105_120000/session_log.txt", 10%N);
    ("assets/sessions/20240104_120000/session_log.txt", 10%N);
    ("assets/sessions/20240106_120000/session_log.txt", 10%N);
    ("assets/sessions/notes/readme.txt", 7%N);
    ("assets/segments/a_seg1.mp4", 200000%N)];
  processed_videos_log := None;
  _assigned := ∅;
  youtube_requests := []
|}.

(** A clip that opens but yields no frame at any position, and a clip
    that shows one well-lit picture throughout. *)
Definition blank_clip : VideoCapture :=
  {| isOpened := true; CAP_PROP_FRAME_COUNT := 3600; read := λ _, NoFrame |}.

Definition still_clip : VideoCapture :=
  {| isOpened := true; CAP_PROP_FRAME_COUNT := 3600;
     read := λ _, Frame [120; 130; 110; 120]%Z |}.

End Housekeeping.

(* ================================================================= *)
(** * Properties *)

(** ** Segment allocator *)

Section Allocator.
Import SegmentManager.
Context (cfg : Config).

Lemma elem_of_available w p sz :
  (p, sz) ∈ available cfg w ↔
  files w !! p = Some sz ∧ Path.matches_mp4 (SEGMENTS_FOLDER cfg) p = true
  ∧ (MIN_SEGMENT_SIZE_BYTES cfg ≤ sz)%N.
Proof.
  unfold available, Path.glob_mp4.
  rewrite !list_elem_of_filter, elem_of_map_to_list. simpl. tauto.
Qed.

(** The pool scan never looks at the assignment map. *)
Lemma available_set_assigned a w : available cfg (set_assigned a w) = available cfg w.
Proof. reflexivity. Qed.

Lemma random_choice_nonempty {A} (r : nat) (l : list A) :
  l ≠ [] → ∃ x, random_choice r l = Some x ∧ x ∈ l.
Proof.
  intros Hne. unfold random_choice.
  assert (Hlt : (r mod length l < length l)%nat).
  { apply Nat.mod_upper_bound. destruct l; [done | simpl; lia]. }
  destruct (lookup_lt_is_Some_2 l _ Hlt) as [x Hx].
  exists x. split; [done |]. by eapply list_elem_of_lookup_2.
Qed.

Lemma select_valid_segment_ok r w p :
  _select_valid_segment cfg r w = Ok p → Spec.size_valid cfg w p.
Proof.
  unfold _select_valid_segment. intros H.
  destruct (available cfg w) as [|e l] eqn:Hav; [done |].
  destruct (random_choice_nonempty r (e :: l)) as [[q sz] [Hq Hin]]; [done |].
  rewrite Hq in H. injection H as <-.
  rewrite <- Hav in Hin. apply elem_of_available in Hin.
  exists sz. tauto.
Qed.

Lemma select_valid_segment_total r w :
  available cfg w ≠ [] → ∃ p, _select_valid_segment cfg r w = Ok p.
Proof.
  intros Hne. unfold _select_valid_segment.
  destruct (random_choice_nonempty r (available cfg w) Hne) as [[q sz] [Hq _]].
  rewrite Hq. destruct (available cfg w); [done |]. by exists q.
Qed.

Lemma select_valid_segment_none r w :
  available cfg w = [] →
  _select_valid_segment cfg r w = Raise (ValueError "No valid segments available.").
Proof. unfold _select_valid_segment. by intros ->. Qed.

Lemma available_nil_iff w :
  available cfg w = [] ↔ ∀ p, ¬ Spec.size_valid cfg w p.
Proof.
  split.
  - intros Hnil p (sz & Hf & Hm & Hsz).
    assert (Hin : (p, sz) ∈ available cfg w) by by apply elem_of_available.
    rewrite Hnil in Hin. by apply not_elem_of_nil in Hin.
  - intros Hno. destruct (available cfg w) as [|[p sz] l] eqn:Hav; [done |].
    exfalso. apply (Hno p). exists sz.
    assert (Hin : (p, sz) ∈ available cfg w) by (rewrite Hav; left).
    apply elem_of_available in Hin. tauto.
Qed.

End Allocator.

Section AllocatorClaims.
Import SegmentManager.

Lemma get_segment_assigned cfg story_id segment w r :
  _assigned w !! story_id = Some segment →
  get_segment cfg story_id r w = Ok (segment, w).
Proof. unfold get_segment. by intros ->. Qed.

Lemma get_segment_records cfg story_id segment r w w1 :
  get_segment cfg story_id r w = Ok (segment, w1) →
  _assigned w1 !! story_id = Some segment.
Proof.
  unfold get_segment. destruct (_assigned w !! story_id) as [s|] eqn:Hs.
  - intros [= <- <-]. done.
  - destruct (_select_valid_segment cfg r w) as [p|e]; simpl; [|done].
    intros [= <- <-]. simpl. apply lookup_insert_eq.
Qed.

Lemma get_segment_fresh cfg story_id r w :
  _assigned w !! story_id = None →
  get_segment cfg story_id r w =
    (segment ← _select_valid_segment cfg r w;
     Ok (segment, set_assigned (<[story_id := segment]> (_assigned w)) w)).
Proof. unfold get_segment. by intros ->. Qed.

(** C9: assigning is idempotent per story id.  A story that already has an
    assignment gets that very segment again, whatever the random draw,
    and the world (assignment map included) is returned unchanged; so a
    second call after a successful first one returns the identical
    segment, in any later world with the same assignment map, whatever
    the pool holds by then. *)
Theorem get_segment_idempotent cfg story_id :
  (∀ w segment r,
      _assigned w !! story_id = Some segment →
      get_segment cfg story_id r w = Ok (segment, w))
  ∧ (∀ w r segment w1,
      get_segment cfg story_id r w = Ok (segment, w1) →
      ∀ r' w2, _assigned w2 = _assigned w1 →
               get_segment cfg story_id r' w2 = Ok (segment, w2)).
Proof.
  split.
  - intros w segment r H. by apply get_segment_assigned.
  - intros w r segment w1 H r' w2 Heq.
    apply get_segment_assigned. rewrite Heq. by eapply get_segment_records.
Qed.

Lemma get_segment_idempotent_witness :
  get_segment default_config "story_1" 0 Scenario.pool
    = Ok ("assets/segments/c_seg1.mp4",
          set_assigned {["story_1" := "assets/segments/c_seg1.mp4"]} Scenario.pool)
  ∧ get_segment default_config "story_1" 0
      (set_assigned {["story_1" := "assets/segments/c_seg1.mp4"]} Scenario.starved_pool)
    = Ok ("assets/segments/c_seg1.mp4",
          set_assigned {["story_1" := "assets/segments/c_seg1.mp4"]} Scenario.starved_pool).
Proof.
  assert (H : get_segment default_config "story_1" 0 Scenario.pool
    = Ok ("assets/segments/c_seg1.mp4",
          set_assigned {["story_1" := "assets/segments/c_seg1.mp4"]} Scenario.pool))
    by (vm_compute; reflexivity).
  split; [exact H |].
  exact (proj2 (get_segment_idempotent default_config "story_1") _ _ _ _ H 0%nat
           (set_assigned {["story_1" := "assets/segments/c_seg1.mp4"]} Scenario.starved_pool)
           eq_refl).
Defined.

(** C1 (the code at the failing input): with three size-valid segments in
    the pool and no assignment yet, story_1 is given a_seg1; two
    unassigned size-valid segments remain; story_2 is then given a_seg1
    as well, and the map records the same segment for both stories. *)
Theorem get_segment_double_assignment :
  ∃ w1 w2,
    get_segment default_config "story_1" 1 Scenario.pool
      = Ok ("assets/segments/a_seg1.mp4", w1)
    ∧ (2 ≤ length (Spec.unassigned default_config w1))%nat
    ∧ get_segment default_config "story_2" 1 w1
      = Ok ("assets/segments/a_seg1.mp4", w2)
    ∧ _assigned w2 !! "story_1" = Some "assets/segments/a_seg1.mp4"
    ∧ _assigned w2 !! "story_2" = Some "assets/segments/a_seg1.mp4".
Proof.
  eexists _, _. split; [vm_compute; reflexivity |].
  split; [vm_compute; lia |].
  split; [vm_compute; reflexivity |].
  split; vm_compute; reflexivity.
Qed.

Lemma get_segment_inv cfg story_id r w segment w' :
  get_segment cfg story_id r w = Ok (segment, w') →
  files w' = files w
  ∧ ((_assigned w !! story_id = Some segment ∧ w' = w)
     ∨ (_assigned w !! story_id = None ∧ Spec.size_valid cfg w segment
        ∧ _assigned w' = <[story_id := segment]> (_assigned w))).
Proof.
  unfold get_segment. destruct (_assigned w !! story_id) as [s|] eqn:Hs.
  - intros [= <- <-]. split; [done |]. by left.
  - destruct (_select_valid_segment cfg r w) as [p|e] eqn:Hsel; simpl; [| done].
    intros [= <- <-]. split; [done |]. right.
    split; [done |]. split; [by eapply select_valid_segment_ok | done].
Qed.

(** Along a run of allocator calls the disk only loses files, and every
    recorded assignment is a size-valid segment of the disk the run
    started from. *)
Lemma handed_out_size_valid cfg w0 calls w segment :
  files w ⊆ files w0 →
  (∀ story_id seg, _assigned w !! story_id = Some seg → Spec.size_valid cfg w0 seg) →
  segment ∈ Spec.handed_out cfg calls w →
  Spec.size_valid cfg w0 segment.
Proof.
  revert w. induction calls as [|[story_id r | story_id] calls IH];
    intros w Hsub Hheld Hin.
  - by apply not_elem_of_nil in Hin.
  - cbn [Spec.handed_out] in Hin.
    destruct (get_segment cfg story_id r w) as [[seg w']|e] eqn:Hget; [| by eapply IH].
    destruct (get_segment_inv _ _ _ _ _ _ Hget) as [Hfiles Hcase].
    assert (Hseg : Spec.size_valid cfg w0 seg).
    { destruct Hcase as [[Hs _] | (_ & (sz & Hf & Hm & Hsz) & _)]; [by eapply Hheld |].
      exists sz. split; [| done]. by eapply lookup_weaken. }
    apply elem_of_cons in Hin as [-> | Hin]; [done |].
    apply (IH w'); [by rewrite Hfiles | | done].
    destruct Hcase as [[_ ->] | (_ & _ & Hmap)]; [done |].
    intros id' seg'. rewrite Hmap.
    intros [[_ <-] | [_ Hold]]%lookup_insert_Some; [done | by eapply Hheld].
  - cbn [Spec.handed_out] in Hin. apply (IH (consume_segment story_id w)); [| | done].
    + unfold consume_segment. destruct (_assigned w !! story_id) as [path|]; [| done].
      destruct (Path.exists_ path _); simpl; [| done].
      etrans; [apply delete_subseteq | done].
    + intros id' seg'. unfold consume_segment.
      destruct (_assigned w !! story_id) as [path|] eqn:Hs; [| apply Hheld].
      assert (Hdel : delete story_id (_assigned w) !! id' = Some seg' →
                     Spec.size_valid cfg w0 seg').
      { intros [_ Hold]%lookup_delete_Some. by eapply Hheld. }
      by destruct (Path.exists_ path _).
Qed.

(** C8: the allocator never hands out a segment below the size floor: in
    any run of assign and consume calls on a fresh allocator, every
    segment returned is a file of the segments folder of at least
    MIN_SEGMENT_SIZE_BYTES bytes.  When the pool holds no size-valid
    segment, [get_segment] raises ValueError "No valid segments
    available." instead of returning a value: so it is for every story
    without an assignment, and for every story whatsoever as long as the
    segments held are still on disk; and a story without an assignment
    is served whenever a size-valid segment exists. *)
Theorem get_segment_size_floor cfg :
  (∀ calls w segment,
      _assigned w = ∅ →
      segment ∈ Spec.handed_out cfg calls w →
      Spec.size_valid cfg w segment ∧ ¬ Spec.undersized cfg w segment)
  ∧ (∀ story_id r w,
      _assigned w !! story_id = None →
      ((∀ p, ¬ Spec.size_valid cfg w p) →
       get_segment cfg story_id r w = Raise (ValueError "No valid segments available."))
      ∧ ((∃ p, Spec.size_valid cfg w p) →
         ∃ segment w', get_segment cfg story_id r w = Ok (segment, w')
                       ∧ Spec.size_valid cfg w segment))
  ∧ (∀ story_id r w,
      Spec.held_on_disk cfg w →
      (∀ p, ¬ Spec.size_valid cfg w p) →
      get_segment cfg story_id r w = Raise (ValueError "No valid segments available.")).
Proof.
  assert (Hfail : ∀ story_id r w,
    _assigned w !! story_id = None → (∀ p, ¬ Spec.size_valid cfg w p) →
    get_segment cfg story_id r w = Raise (ValueError "No valid segments available.")).
  { intros story_id r w Hfresh Hno. rewrite (get_segment_fresh _ _ _ _ Hfresh).
    rewrite select_valid_segment_none; [done |]. by apply available_nil_iff. }
  split; [| split].
  - intros calls w segment Hempty Hin.
    assert (Hv : Spec.size_valid cfg w segment).
    { apply (handed_out_size_valid cfg w calls w); [done | | done].
      intros id seg. by rewrite Hempty, lookup_empty. }
    split; [done |].
    destruct Hv as (sz & Hf & _ & Hsz). intros (sz' & Hf' & Hlt).
    rewrite Hf in Hf'. injection Hf' as <-. lia.
  - intros story_id r w Hfresh. split; [by apply Hfail |].
    intros [p Hp]. rewrite (get_segment_fresh _ _ _ _ Hfresh).
    destruct (select_valid_segment_total cfg r w) as [q Hq].
    { intros Hnil. by apply (proj1 (available_nil_iff cfg w) Hnil p). }
    rewrite Hq. simpl. eexists _, _. split; [done |].
    by eapply select_valid_segment_ok.
  - intros story_id r w Hheld Hno. apply Hfail; [| done].
    destruct (_assigned w !! story_id) as [seg|] eqn:Hs; [| done].
    exfalso. by apply (Hno seg), (Hheld story_id).
Qed.

Lemma get_segment_size_floor_witness :
  (∀ segment,
      segment ∈ Spec.handed_out default_config
                  [Spec.Assign "story_1" 0; Spec.Assign "story_2" 1; Spec.Consume "story_1";
                   Spec.Assign "story_2" 2; Spec.Assign "story_3" 5]
                  Scenario.pool →
      ¬ Spec.undersized default_config Scenario.pool segment)
  ∧ get_segment default_config "story_1" 3 Scenario.starved_pool
    = Raise (ValueError "No valid segments available.").
Proof.
  assert (Hno : ∀ p, ¬ Spec.size_valid default_config Scenario.starved_pool p).
  { apply available_nil_iff. vm_compute. reflexivity. }
  split.
  - intros segment Hin.
    exact (proj2 (proj1 (get_segment_size_floor default_config) _ Scenario.pool segment
                    eq_refl Hin)).
  - exact (proj1 (proj1 (proj2 (get_segment_size_floor default_config)) "story_1" 3%nat
                    Scenario.starved_pool eq_refl) Hno).
Defined.

(** The root of the double assignment of C1: whatever two stories without
    an assignment ask, and whatever size-valid segment the pool holds,
    some pair of random draws gives that segment to both. *)
Lemma get_segment_can_repeat cfg w story_1 story_2 segment :
  story_1 ≠ story_2 →
  _assigned w !! story_1 = None →
  _assigned w !! story_2 = None →
  Spec.size_valid cfg w segment →
  ∃ r w1 w2,
    get_segment cfg story_1 r w = Ok (segment, w1)
    ∧ get_segment cfg story_2 r w1 = Ok (segment, w2).
Proof.
  intros Hne H1 H2 (sz & Hf & Hm & Hsz).
  assert (Hin : (segment, sz) ∈ available cfg w) by by apply elem_of_available.
  apply list_elem_of_lookup in Hin as [i Hi].
  assert (Hlt : (i < length (available cfg w))%nat) by by eapply lookup_lt_Some.
  assert (Hsel : ∀ a, _select_valid_segment cfg i (set_assigned a w) = Ok segment).
  { intros a. unfold _select_valid_segment, random_choice.
    rewrite available_set_assigned, Nat.mod_small, Hi by done.
    by destruct (available cfg w). }
  exists i. eexists _, _. split.
  - rewrite get_segment_fresh by done.
    assert (Hw : _select_valid_segment cfg i w = Ok segment).
    { specialize (Hsel (_assigned w)). by destruct w. }
    rewrite Hw. reflexivity.
  - rewrite get_segment_fresh by (simpl; by rewrite lookup_insert_ne).
    rewrite Hsel. reflexivity.
Qed.

(** The example of the specification: three valid segments and one
    undersized file; three assign-and-consume cycles take the three
    valid ones, and the fourth assignment fails. *)
Example three_cycles_then_starved :
  let step story r w :=
    match get_segment default_config story r w with
    | Ok (segment, w') => Some (segment, consume_segment story w')
    | Raise _ => None
    end in
  ∃ w1 w2 w3,
    step "story_1" 0%nat Scenario.pool = Some ("assets/segments/c_seg1.mp4", w1)
    ∧ step "story_2" 0%nat w1 = Some ("assets/segments/a_seg1.mp4", w2)
    ∧ step "story_3" 0%nat w2 = Some ("assets/segments/b_seg1.mp4", w3)
    ∧ get_segment default_config "story_4" 0 w3
      = Raise (ValueError "No valid segments available.").
Proof.
  eexists _, _, _. repeat split; vm_compute; reflexivity.
Qed.

End AllocatorClaims.

(** ** Publishing and cleanup phase *)

Section PublishPhase.
Import MainLoop Uploader SegmentManager.
Context (cfg : Config) (isoformat : datetime → string).

Lemma upload_keeps_disk_and_assignments youtube path t d tg publish_at w video_id w1 :
  upload_to_youtube cfg isoformat youtube path t d tg publish_at w = (video_id, w1) →
  files w1 = files w ∧ _assigned w1 = _assigned w.
Proof.
  unfold upload_to_youtube. intros H.
  destruct youtube as [api|]; [| by injection H as <- <-].
  destruct (negb (Path.exists_ path (files w))); [by injection H as <- <- |].
  destruct (videos_insert api _); by injection H as <- <-.
Qed.

Lemma consume_segment_unassigns story w :
  _assigned (consume_segment story w) !! story = None.
Proof.
  unfold consume_segment. destruct (_assigned w !! story) as [path|] eqn:Hs; [| done].
  destruct (Path.exists_ path _); simpl; apply lookup_delete_eq.
Qed.

Lemma consume_segment_deletes story w segment :
  _assigned w !! story = Some segment →
  files (consume_segment story w) !! segment = None.
Proof.
  unfold consume_segment. intros ->.
  destruct (Path.exists_ segment _) eqn:Hex; simpl.
  - apply lookup_delete_eq.
  - unfold Path.exists_ in Hex. apply bool_decide_eq_false in Hex.
    simpl in Hex. by apply eq_None_not_Some.
Qed.

Lemma consume_segment_requests story w :
  youtube_requests (consume_segment story w) = youtube_requests w.
Proof.
  unfold consume_segment. destruct (_assigned w !! story); [| done].
  by destruct (Path.exists_ _ _).
Qed.

Lemma rmtree_below dir fs p : Path.below dir p = true → Path.rmtree dir fs !! p = None.
Proof.
  intros Hb. unfold Path.rmtree. apply map_lookup_filter_None. right.
  intros sz _. simpl. by rewrite Hb.
Qed.

Lemma rmtree_absent dir fs p : fs !! p = None → Path.rmtree dir fs !! p = None.
Proof. intros H. unfold Path.rmtree. apply map_lookup_filter_None. by left. Qed.

(** C4: in the publishing phase the segment is consumed (assignment
    removed, segment file deleted) and the job's working directory is
    removed if and only if the publish call returns a video id.  When the
    call is made and fails, the assignment map and every file on disk are
    left exactly as they were; when no call is made (no usable output
    video, or the scheduler raised) nothing is touched either. *)
Theorem publish_and_cleanup_consumes_iff_published
    youtube job target current clock w :
  (output_ready job w = false →
   publish_and_cleanup cfg isoformat youtube job target current clock w = Ok w)
  ∧ (∀ e, output_ready job w = true →
          publish_time_for_api cfg target current clock = Raise e →
          publish_and_cleanup cfg isoformat youtube job target current clock w = Raise e)
  ∧ (∀ publish_at video_id w1,
      output_ready job w = true →
      publish_time_for_api cfg target current clock = Ok publish_at →
      upload_to_youtube cfg isoformat youtube (output_video_path job)
        (yt_title job) (yt_desc job) (yt_tags job) publish_at w = (video_id, w1) →
      ∃ w', publish_and_cleanup cfg isoformat youtube job target current clock w = Ok w'
        ∧ (truthy video_id = true →
             _assigned w' !! story_id job = None
             ∧ (∀ segment, _assigned w !! story_id job = Some segment →
                           files w' !! segment = None)
             ∧ (∀ p, Path.below (story_folder job) p = true → files w' !! p = None))
        ∧ (truthy video_id = false → _assigned w' = _assigned w ∧ files w' = files w)
        ∧ (is_Some (_assigned w !! story_id job) →
             (truthy video_id = true ↔ _assigned w' !! story_id job = None))).
Proof.
  split; [| split].
  - intros Hready. unfold publish_and_cleanup. by rewrite Hready.
  - intros e Hready Hdec. unfold publish_and_cleanup. by rewrite Hready, Hdec.
  - intros publish_at video_id w1 Hready Hdec Hup.
    destruct (upload_keeps_disk_and_assignments _ _ _ _ _ _ _ _ _ Hup) as [Hf Ha].
    unfold publish_and_cleanup. rewrite Hready, Hdec. simpl. rewrite Hup.
    destruct (truthy video_id) eqn:Htr.
    + eexists. split; [reflexivity |]. simpl.
      assert (Hgone : _assigned (consume_segment (story_id job) w1) !! story_id job = None)
        by apply consume_segment_unassigns.
      split; [| split].
      * intros _. split; [done |]. split.
        -- intros segment Hs. apply rmtree_absent.
           apply consume_segment_deletes. by rewrite Ha.
        -- intros p Hp. by apply rmtree_below.
      * done.
      * intros _. done.
    + exists w1. split; [reflexivity |].
      split; [done |]. split; [done |].
      intros [segment Hs]. rewrite Ha, Hs. split; done.
Qed.

(** C10: the upload request sent in the publishing phase carries
    privacyStatus "private" together with status.publishAt equal to the
    decided time exactly when the decision is a scheduled time, and
    privacyStatus "public" with no publishAt when the decision is
    publish-now. *)
Theorem upload_privacy_follows_decision
    api job target current clock w publish_at :
  output_ready job w = true →
  publish_time_for_api cfg target current clock = Ok publish_at →
  ∃ w' request,
    publish_and_cleanup cfg isoformat (Some api) job target current clock w = Ok w'
    ∧ youtube_requests w' = (youtube_requests w ++ [request])%list
    ∧ media_body request = output_video_path job
    ∧ match publish_at with
      | Some t => privacyStatus (status (body request)) = "private"
                  ∧ publishAt (status (body request)) = Some (isoformat t)
      | None => privacyStatus (status (body request)) = "public"
                ∧ publishAt (status (body request)) = None
      end.
Proof.
  intros Hready Hdec.
  unfold publish_and_cleanup. rewrite Hready, Hdec. simpl.
  unfold upload_to_youtube.
  assert (Hex : Path.exists_ (output_video_path job) (files w) = true).
  { unfold output_ready in Hready. unfold Path.exists_. apply bool_decide_eq_true.
    destruct (files w !! output_video_path job); [by eexists | done]. }
  rewrite Hex. simpl.
  set (request := {| body := build_body cfg isoformat (yt_title job) (yt_desc job)
                               (yt_tags job) publish_at;
                     media_body := output_video_path job |}).
  assert (Hbody : match publish_at with
      | Some t => privacyStatus (status (body request)) = "private"
                  ∧ publishAt (status (body request)) = Some (isoformat t)
      | None => privacyStatus (status (body request)) = "public"
                ∧ publishAt (status (body request)) = None
      end) by (destruct publish_at; done).
  destruct (videos_insert api request) as [video_id|e].
  - destruct (truthy video_id).
    + eexists _, request. split; [reflexivity |]. simpl.
      rewrite consume_segment_requests. done.
    + eexists _, request. done.
  - eexists _, request. done.
Qed.

End PublishPhase.

(** ** Publish scheduler *)

Section SlotStrings.
Local Open Scope Z_scope.
Import Spec.

Lemma is_digit_range c : is_digit c = true → 0 <= digit_value c <= 9.
Proof. unfold is_digit, digit_value. lia. Qed.

Lemma is_digit_not c sep :
  is_digit sep = false → is_digit c = true → Ascii.eqb c sep = false.
Proof.
  intros Hsep Hc. apply Ascii.eqb_neq. intros ->. congruence.
Qed.

Lemma int_two_digits a b :
  is_digit a = true → is_digit b = true →
  int (String a (String b EmptyString)) = Ok (10 * digit_value a + digit_value b).
Proof.
  intros Ha Hb. unfold int.
  rewrite (is_digit_not a "-"), (is_digit_not a "+") by done.
  simpl. rewrite Ha, Hb. f_equal. lia.
Qed.

(** The shape of a zero-padded slot string. *)
Lemma is_hh_mm_inv s :
  is_hh_mm s = true →
  ∃ a b d e,
    s = String a (String b (String ":" (String d (String e EmptyString))))
    ∧ is_digit a = true ∧ is_digit b = true ∧ is_digit d = true ∧ is_digit e = true
    ∧ 10 * digit_value a + digit_value b < 24
    ∧ 10 * digit_value d + digit_value e < 60.
Proof.
  destruct s as [|a [|b [|c [|d [|e [|? ?]]]]]]; try done.
  unfold is_hh_mm. rewrite !andb_true_iff, Ascii.eqb_eq, !Z.ltb_lt.
  intros [[[[[[Ha Hb] ->] Hd] He] Hh] Hm]. by exists a, b, d, e.
Qed.

Lemma parse_hh_mm a b d e :
  is_digit a = true → is_digit b = true → is_digit d = true → is_digit e = true →
  parse_hour_minute (String a (String b (String ":" (String d (String e EmptyString)))))
  = Ok (10 * digit_value a + digit_value b, 10 * digit_value d + digit_value e).
Proof.
  intros Ha Hb Hd He. unfold parse_hour_minute, split.
  cbn [split_aux]. rewrite !(is_digit_not _ ":") by done.
  cbn [split_aux]. rewrite Ascii.eqb_refl.
  cbn [split_aux]. rewrite !(is_digit_not _ ":") by done.
  change (String.rev (String b (String a ""))) with (String a (String b "")).
  change (String.rev (String e (String d ""))) with (String d (String e "")).
  rewrite !int_two_digits by done. done.
Qed.

Lemma is_hh_mm_slot s :
  is_hh_mm s = true →
  ∃ h m, parse_hour_minute s = Ok (h, m) ∧ 0 <= h < 24 ∧ 0 <= m < 60
         ∧ minutes_of_day s = h * 60 + m.
Proof.
  intros (a & b & d & e & -> & Ha & Hb & Hd & He & Hh & Hm)%is_hh_mm_inv.
  pose proof (is_digit_range _ Ha). pose proof (is_digit_range _ Hb).
  pose proof (is_digit_range _ Hd). pose proof (is_digit_range _ He).
  eexists _, _. split; [by apply parse_hh_mm |].
  unfold minutes_of_day. rewrite parse_hh_mm by done. lia.
Qed.

(** On zero-padded slot strings the order of [str] is the order of the
    times of day. *)
Lemma str_le_hh_mm s1 s2 :
  is_hh_mm s1 = true → is_hh_mm s2 = true →
  str_le s1 s2 ↔ minutes_of_day s1 <= minutes_of_day s2.
Proof.
  intros (a1 & b1 & d1 & e1 & -> & Ha1 & Hb1 & Hd1 & He1 & _ & Hm1)%is_hh_mm_inv.
  intros (a2 & b2 & d2 & e2 & -> & Ha2 & Hb2 & Hd2 & He2 & _ & Hm2)%is_hh_mm_inv.
  unfold minutes_of_day. rewrite !parse_hh_mm by done.
  pose proof (is_digit_range _ Ha1). pose proof (is_digit_range _ Hb1).
  pose proof (is_digit_range _ Hd1). pose proof (is_digit_range _ He1).
  pose proof (is_digit_range _ Ha2). pose proof (is_digit_range _ Hb2).
  pose proof (is_digit_range _ Hd2). pose proof (is_digit_range _ He2).
  unfold str_le, String.leb. simpl. unfold Ascii.compare.
  unfold digit_value in *.
  destruct (N.compare_spec (N_of_ascii a1) (N_of_ascii a2));
    [destruct (N.compare_spec (N_of_ascii b1) (N_of_ascii b2));
      [simpl; destruct (N.compare_spec (N_of_ascii d1) (N_of_ascii d2));
        [destruct (N.compare_spec (N_of_ascii e1) (N_of_ascii e2)) | |] | |] | |];
    split; intros; try done; lia.
Qed.

End SlotStrings.

Section NextSlot.
Local Open Scope Z_scope.
Import Spec.

Lemma ltb_iff a b : ltb a b = true ↔ utc_us a < utc_us b.
Proof. unfold ltb. apply Z.ltb_lt. Qed.

Lemma ltb_false_iff a b : ltb a b = false ↔ utc_us b <= utc_us a.
Proof. unfold ltb. apply Z.ltb_ge. Qed.

Lemma leb_iff a b : leb a b = true ↔ utc_us a <= utc_us b.
Proof. unfold leb. apply Z.leb_le. Qed.

Lemma utc_us_mk day h m off :
  utc_us (mk_datetime day h m 0 0 off)
  = ((day * 24 + h) * 60 + m) * 60 * 1000000 - off * 60 * 1000000.
Proof. unfold utc_us, wall_us. simpl. lia. Qed.

Lemma replace_in_range dt h m :
  0 <= h < 24 → 0 <= m < 60 →
  replace dt h m 0 0 = Ok (mk_datetime (toordinal dt) h m 0 0 (utcoffset dt)).
Proof.
  intros Hh Hm. unfold replace.
  assert (H1 : (0 <=? h) && (h <? 24) = true) by lia.
  assert (H2 : (0 <=? m) && (m <? 60) = true) by lia.
  rewrite H1, H2. reflexivity.
Qed.

Lemma occurrence_slot now day s h m :
  parse_hour_minute s = Ok (h, m) → 0 <= h < 24 → 0 <= m < 60 →
  occurrence now day s = Some (mk_datetime day h m 0 0 (utcoffset now)).
Proof.
  intros Hp Hh Hm. unfold occurrence. rewrite Hp, replace_in_range by done. done.
Qed.

Lemma str_le_total : Total str_le.
Proof. intros a b. apply String.leb_total. Qed.

Lemma earlier_slot_trans : Transitive earlier_slot.
Proof. unfold earlier_slot. intros a b c. lia. Qed.

Lemma Sorted_hh_mm l :
  Forall (λ s, is_hh_mm s = true) l → Sorted str_le l → Sorted earlier_slot l.
Proof.
  induction 2 as [|x l Hs IH Hhd]; [constructor |].
  inversion H as [|? ? Hx Hl]; subst.
  constructor; [by apply IH |].
  destruct Hhd as [|y l Hxy]; constructor.
  inversion Hl; subst. by apply str_le_hh_mm.
Qed.

(** On a schedule of zero-padded slots, [sorted] orders by time of day. *)
Lemma sorted_by_time_of_day schedule :
  Forall (λ s, is_hh_mm s = true) schedule →
  StronglySorted earlier_slot (sorted schedule)
  ∧ Forall (λ s, is_hh_mm s = true) (sorted schedule)
  ∧ sorted schedule ≡ₚ schedule.
Proof.
  intros Hall.
  assert (Hperm : sorted schedule ≡ₚ schedule) by apply merge_sort_Permutation.
  assert (Hall' : Forall (λ s, is_hh_mm s = true) (sorted schedule))
    by by rewrite Hperm.
  split; [| done].
  apply Sorted_StronglySorted; [apply earlier_slot_trans |].
  apply Sorted_hh_mm; [done |]. apply Sorted_merge_sort, str_le_total.
Qed.

(** What the loop over the sorted slots finds. *)
Lemma first_slot_today_scan now l :
  Forall (λ s, is_hh_mm s = true) l →
  ∃ r, first_slot_today now l = Ok r ∧
    match r with
    | Some t =>
        ∃ pre s post, l = (pre ++ s :: post)%list
          ∧ occurrence now (toordinal now) s = Some t
          ∧ ltb now t = true
          ∧ ∀ s' t', s' ∈ pre → occurrence now (toordinal now) s' = Some t' →
                     ltb now t' = false
    | None =>
        ∀ s' t', s' ∈ l → occurrence now (toordinal now) s' = Some t' →
                 ltb now t' = false
    end.
Proof.
  induction 1 as [|s l Hs Hl IH].
  - exists None. split; [done |]. intros s' t' Hin. by apply not_elem_of_nil in Hin.
  - destruct (is_hh_mm_slot s Hs) as (h & m & Hp & Hh & Hm & _).
    pose proof (occurrence_slot now (toordinal now) s h m Hp Hh Hm) as Hocc.
    cbn [first_slot_today]. rewrite Hp. simpl.
    rewrite replace_in_range by done. simpl.
    set (t := mk_datetime (toordinal now) h m 0 0 (utcoffset now)) in *.
    unfold gtb. destruct (ltb now t) eqn:Hlt.
    + exists (Some t). split; [done |].
      exists [], s, l. split; [done |]. split; [done |]. split; [done |].
      intros s' t' Hin. by apply not_elem_of_nil in Hin.
    + destruct IH as (r & Hr & Hspec). exists r. split; [done |].
      destruct r as [t1|].
      * destruct Hspec as (pre & s1 & post & -> & Hocc1 & Hlt1 & Hpre).
        exists (s :: pre), s1, post. split; [done |]. split; [done |]. split; [done |].
        intros s' t' [-> | Hin]%elem_of_cons Ho.
        -- rewrite Hocc in Ho. by injection Ho as <-.
        -- by eapply Hpre.
      * intros s' t' [-> | Hin]%elem_of_cons Ho.
        -- rewrite Hocc in Ho. by injection Ho as <-.
        -- by eapply Hspec.
Qed.

End NextSlot.

Section NextSlotClaims.
Local Open Scope Z_scope.
Import Spec.

(** An occurrence of a zero-padded slot, spelled out. *)
Lemma occurrence_inv schedule now :
  Forall (λ s, is_hh_mm s = true) schedule →
  ∀ s t day, s ∈ schedule → occurrence now day s = Some t →
    ∃ h m, 0 <= h < 24 ∧ 0 <= m < 60 ∧ minutes_of_day s = h * 60 + m
           ∧ t = mk_datetime day h m 0 0 (utcoffset now).
Proof.
  intros Hall s t day Hin Ho.
  rewrite Forall_forall in Hall.
  destruct (is_hh_mm_slot s (Hall s Hin)) as (h & m & Hp & Hhr & Hmr & Hmin).
  rewrite (occurrence_slot now day s h m Hp Hhr Hmr) in Ho.
  injection Ho as <-. by exists h, m.
Qed.

(** The scheduler on zero-padded slots meets its specification. *)
Lemma next_slot_ok_hh_mm schedule now :
  schedule ≠ [] →
  Forall (λ s, is_hh_mm s = true) schedule →
  DateTime.valid now →
  next_slot_ok schedule now.
Proof.
  intros Hne Hall (Hh & Hm & Hs & Hus).
  destruct (sorted_by_time_of_day schedule Hall) as (Hsorted & Hall' & Hperm).
  destruct (first_slot_today_scan now (sorted schedule) Hall') as (r & Hr & Hscan).
  pose proof (occurrence_inv schedule now Hall) as Hday.
  assert (Hnow : utc_us now
                 = (((toordinal now * 24 + hour now) * 60 + minute now) * 60 + second now)
                   * 1000000 + microsecond now - utcoffset now * 60 * 1000000)
    by reflexivity.
  unfold next_slot_ok, get_next_publish_time. rewrite Hr. simpl.
  destruct r as [t|].
  - destruct Hscan as (pre & s & post & HL & Hocc & Hlt & Hpre).
    assert (Hs_in : s ∈ schedule).
    { rewrite <- Hperm, HL. apply elem_of_app. right. left. }
    exists t. split; [done |]. split; [done |].
    split; [by exists s, (toordinal now) |].
    destruct (Hday _ _ _ Hs_in Hocc) as (h & m & Hhr & Hmr & Hmin & ->).
    split; [| by left].
    intros t' (s' & day & Hin' & Hocc') Hlt'.
    destruct (Hday _ _ _ Hin' Hocc') as (h' & m' & Hhr' & Hmr' & Hmin' & ->).
    apply ltb_iff in Hlt'. apply leb_iff. rewrite !utc_us_mk in *.
    destruct (Z.lt_trichotomy day (toordinal now)) as [Hlo | [-> | Hhi]]; [lia | | lia].
    assert (Hin_sorted : s' ∈ sorted schedule) by by rewrite Hperm.
    rewrite HL in Hin_sorted, Hsorted.
    apply elem_of_app in Hin_sorted as [Hp | Hp].
    + specialize (Hpre _ _ Hp Hocc'). apply ltb_false_iff in Hpre.
      rewrite utc_us_mk in Hpre. lia.
    + apply StronglySorted_app_1_r in Hsorted.
      apply elem_of_cons in Hp as [-> | Hp]; [lia |].
      inversion Hsorted as [|? ? _ Hle]; subst.
      rewrite Forall_forall in Hle. specialize (Hle _ Hp).
      unfold earlier_slot in Hle. lia.
  - destruct (sorted schedule) as [|first rest] eqn:HL.
    { apply Permutation_nil_l in Hperm. by subst. }
    assert (Hfirst_in : first ∈ schedule).
    { rewrite <- Hperm. left. }
    inversion Hall' as [|? ? Hfirst _]; subst.
    destruct (is_hh_mm_slot first Hfirst) as (h & m & Hp & Hhr & Hmr & Hmin).
    rewrite Hp. simpl. rewrite replace_in_range by done. simpl.
    eexists. split; [reflexivity |].
    split; [apply ltb_iff; rewrite utc_us_mk; lia |].
    split.
    { exists first, (toordinal now + 1). split; [done |]. by apply occurrence_slot. }
    split.
    + intros t' (s' & day & Hin' & Hocc') Hlt'.
      destruct (Hday _ _ _ Hin' Hocc') as (h' & m' & Hhr' & Hmr' & Hmin' & ->).
      assert (Hin_sorted : s' ∈ first :: rest) by by rewrite Hperm.
      apply ltb_iff in Hlt'. apply leb_iff. rewrite !utc_us_mk in *.
      destruct (Z.lt_trichotomy day (toordinal now)) as [Hlo | [-> | Hhi]]; [lia | |].
      * specialize (Hscan _ _ Hin_sorted Hocc'). apply ltb_false_iff in Hscan.
        rewrite utc_us_mk in Hscan. lia.
      * apply elem_of_cons in Hin_sorted as [-> | Hin_rest].
        -- lia.
        -- inversion Hsorted as [|? ? _ Hle]; subst.
           rewrite Forall_forall in Hle. specialize (Hle _ Hin_rest).
           unfold earlier_slot in Hle. lia.
    + right. split; [done |].
      intros s' t' Hin' Hocc'. apply (Hscan s' t'); [by rewrite Hperm | done].
Qed.


(** As long as the next slot has not been reached, a later reading of the
    clock yields the same next slot. *)
Lemma next_slot_unchanged_until_reached schedule now later t :
  schedule ≠ [] →
  Forall (λ s, is_hh_mm s = true) schedule →
  DateTime.valid now → DateTime.valid later →
  utcoffset later = utcoffset now →
  leb now later = true →
  get_next_publish_time schedule now = Ok t →
  ltb later t = true →
  get_next_publish_time schedule later = Ok t.
Proof.
  intros Hne Hall Hnow Hlater Hoff Hle Hget Hbefore.
  destruct (next_slot_ok_hh_mm schedule now Hne Hall Hnow)
    as (t1 & Hget1 & Hlt1 & Hocc1 & Hmin1 & _).
  destruct (next_slot_ok_hh_mm schedule later Hne Hall Hlater)
    as (t2 & Hget2 & Hlt2 & Hocc2 & Hmin2 & _).
  rewrite Hget in Hget1. injection Hget1 as <-. rewrite Hget2. f_equal.
  assert (Hsame : ∀ x, is_occurrence schedule later x ↔ is_occurrence schedule now x).
  { intros x. unfold is_occurrence, occurrence. by rewrite Hoff. }
  apply leb_iff in Hle. apply ltb_iff in Hlt1, Hlt2, Hbefore.
  assert (H12 : leb t t2 = true).
  { apply Hmin1; [by apply Hsame |]. apply ltb_iff. lia. }
  assert (H21 : leb t2 t = true).
  { apply Hmin2; [by apply Hsame |]. by apply ltb_iff. }
  apply leb_iff in H12, H21.
  destruct Hocc1 as (s1 & d1 & Hin1 & Ho1). destruct Hocc2 as (s2 & d2 & Hin2 & Ho2).
  destruct (occurrence_inv schedule now Hall _ _ _ Hin1 Ho1) as (h1 & m1 & ? & ? & _ & ->).
  destruct (occurrence_inv schedule later Hall _ _ _ Hin2 Ho2) as (h2 & m2 & ? & ? & _ & ->).
  rewrite Hoff, !utc_us_mk in *.
  assert (d1 = d2) as -> by lia. assert (h1 = h2) as -> by lia.
  assert (m1 = m2) as -> by lia. done.
Qed.

(** Where the scheduler does what C3 asks: for every non-empty schedule
    of zero-padded HH:MM slots, in any order, and every clock reading,
    [get_next_publish_time] returns a slot occurrence strictly after now,
    the least slot occurrence strictly after now; it is today's earliest
    slot after now or, when none is left today, the earliest slot of the
    following day.  For such slots the order of the strings, in which the
    function sorts them, is the order by time of day. *)
Theorem get_next_publish_time_minimal schedule now :
  schedule ≠ [] →
  Forall (λ s, is_hh_mm s = true) schedule →
  DateTime.valid now →
  next_slot_ok schedule now
  ∧ StronglySorted earlier_slot (sorted schedule)
  ∧ sorted schedule ≡ₚ schedule.
Proof.
  intros Hne Hall Hnow. split; [by apply next_slot_ok_hh_mm |].
  destruct (sorted_by_time_of_day schedule Hall) as (Hsorted & _ & Hperm). done.
Qed.

Lemma get_next_publish_time_minimal_witness :
  Spec.next_slot_ok ["20:00"; "08:00"] (Scenario.at_ 9 0 0 0)
  ∧ StronglySorted earlier_slot (sorted ["20:00"; "08:00"])
  ∧ sorted ["20:00"; "08:00"] ≡ₚ ["20:00"; "08:00"].
Proof.
  apply get_next_publish_time_minimal.
  - discriminate.
  - repeat constructor.
  - unfold DateTime.valid. simpl. lia.
Defined.

(** C3 (the code at the failing input): with the slots "8:00" and
    "10:30" (both read by the code as times of day) and now = 07:00, the
    schedule is sorted as strings, which puts "10:30" before "8:00"; the
    code answers 10:30 although 8:00 today is a slot occurrence after now
    and earlier, so the time returned is not the next slot. *)
Theorem get_next_publish_time_unpadded_not_minimal :
  Forall Spec.is_slot ["8:00"; "10:30"]
  ∧ DateTime.valid (Scenario.at_ 7 0 0 0)
  ∧ sorted ["8:00"; "10:30"] = ["10:30"; "8:00"]
  ∧ get_next_publish_time ["8:00"; "10:30"] (Scenario.at_ 7 0 0 0)
    = Ok (Scenario.at_ 10 30 0 0)
  ∧ ¬ Spec.next_slot_ok ["8:00"; "10:30"] (Scenario.at_ 7 0 0 0).
Proof.
  split.
  { repeat constructor.
    - exists 8, 0. split; [reflexivity | lia].
    - exists 10, 30. split; [reflexivity | lia]. }
  split; [unfold DateTime.valid; simpl; lia |].
  split; [reflexivity |].
  split; [reflexivity |].
  intros (t & Hget & _ & _ & Hmin & _).
  assert (Ht : t = Scenario.at_ 10 30 0 0).
  { vm_compute in Hget. by injection Hget as <-. }
  subst t.
  specialize (Hmin (Scenario.at_ 8 0 0 0)).
  assert (Hle : leb (Scenario.at_ 10 30 0 0) (Scenario.at_ 8 0 0 0) = true).
  { apply Hmin; [| reflexivity].
    exists "8:00", 739311. split; [set_solver | reflexivity]. }
  vm_compute in Hle. discriminate.
Qed.

End NextSlotClaims.

(** ** Publish timing *)

Section PublishTiming.
Import Spec MainLoop.

Lemma Qle_bool_false (x y : Q) : (y < x)%Q → Qle_bool x y = false.
Proof.
  intros Hlt. destruct (Qle_bool x y) eqn:E; [| done].
  apply Qle_bool_iff in E. exfalso. by eapply Qlt_not_le.
Qed.

Lemma geb_ltb a b : geb a b = negb (ltb a b).
Proof. unfold geb, leb, ltb. apply Z.leb_antisym. Qed.

(** C2 (as amended): the decision has exactly three outcomes.  Completion
    strictly before the target keeps the original target as the scheduled
    time; completion at or after the target with an overrun of at most
    the tolerance (boundary included, zero overrun included) publishes
    now; a larger overrun schedules for the next slot, computed from the
    clock as read again at that moment rather than from the completion
    time.  The three cases leave nothing out, and the slot found is the
    one after the completion time as long as that slot has not been
    reached by the second reading. *)
Theorem publish_time_for_api_three_outcomes cfg target completion clock_at_reschedule :
  publish_decision_ok cfg target completion clock_at_reschedule
    (publish_time_for_api cfg target completion clock_at_reschedule)
  ∧ (ltb completion target = true
     ∨ (geb completion target = true
        ∧ (overrun_minutes target completion
           <= inject_Z (PUBLISH_TOLERANCE_MINUTES cfg))%Q)
     ∨ (geb completion target = true
        ∧ (inject_Z (PUBLISH_TOLERANCE_MINUTES cfg)
           < overrun_minutes target completion)%Q))
  ∧ (PUBLISHING_SCHEDULE cfg ≠ [] →
     Forall (λ s, is_hh_mm s = true) (PUBLISHING_SCHEDULE cfg) →
     DateTime.valid completion → DateTime.valid clock_at_reschedule →
     utcoffset clock_at_reschedule = utcoffset completion →
     leb completion clock_at_reschedule = true →
     ∀ t, get_next_publish_time (PUBLISHING_SCHEDULE cfg) completion = Ok t →
          ltb clock_at_reschedule t = true →
          get_next_publish_time (PUBLISHING_SCHEDULE cfg) clock_at_reschedule = Ok t).
Proof.
  split; [| split].
  - unfold publish_decision_ok, publish_time_for_api, overrun_minutes.
    split; [| split].
    + intros Hlt. rewrite geb_ltb, Hlt. done.
    + intros -> Hle. apply Qle_bool_iff in Hle. by rewrite Hle.
    + intros -> Hgt. by rewrite (Qle_bool_false _ _ Hgt).
  - rewrite geb_ltb. destruct (ltb completion target); [by left | right].
    destruct (Qlt_le_dec (inject_Z (PUBLISH_TOLERANCE_MINUTES cfg))
                (overrun_minutes target completion)); [by right | by left].
  - intros Hne Hall Hv1 Hv2 Hoff Hle t Hget Hbefore.
    by apply (next_slot_unchanged_until_reached _ completion clock_at_reschedule t).
Qed.

Lemma publish_time_for_api_three_outcomes_witness :
  publish_time_for_api default_config (Scenario.at_ 8 0 0 0) (Scenario.at_ 7 40 0 0)
    (Scenario.at_ 7 40 0 700) = Ok (Some (Scenario.at_ 8 0 0 0))
  ∧ publish_time_for_api default_config (Scenario.at_ 8 0 0 0) (Scenario.at_ 8 0 0 0)
      (Scenario.at_ 8 0 0 700) = Ok None
  ∧ publish_time_for_api default_config (Scenario.at_ 8 0 0 0) (Scenario.at_ 8 30 0 0)
      (Scenario.at_ 8 30 0 700) = Ok None
  ∧ publish_time_for_api default_config (Scenario.at_ 8 0 0 0) (Scenario.at_ 8 30 0 1)
      (Scenario.at_ 8 30 0 700) = Ok (Some (Scenario.at_ 10 30 0 0))
  ∧ get_next_publish_time (PUBLISHING_SCHEDULE default_config) (Scenario.at_ 8 30 0 700)
    = Ok (Scenario.at_ 10 30 0 0).
Proof.
  split; [| split; [| split; [| split]]].
  - apply (proj1 (proj1 (publish_time_for_api_three_outcomes default_config
             (Scenario.at_ 8 0 0 0) (Scenario.at_ 7 40 0 0) (Scenario.at_ 7 40 0 700)))).
    reflexivity.
  - apply (proj1 (proj2 (proj1 (publish_time_for_api_three_outcomes default_config
             (Scenario.at_ 8 0 0 0) (Scenario.at_ 8 0 0 0) (Scenario.at_ 8 0 0 700))))).
    + reflexivity.
    + apply Qle_bool_iff. vm_compute. reflexivity.
  - apply (proj1 (proj2 (proj1 (publish_time_for_api_three_outcomes default_config
             (Scenario.at_ 8 0 0 0) (Scenario.at_ 8 30 0 0) (Scenario.at_ 8 30 0 700))))).
    + reflexivity.
    + apply Qle_bool_iff. vm_compute. reflexivity.
  - apply (proj2 (proj2 (proj1 (publish_time_for_api_three_outcomes default_config
             (Scenario.at_ 8 0 0 0) (Scenario.at_ 8 30 0 1) (Scenario.at_ 8 30 0 700))))).
    + reflexivity.
    + unfold Qlt. vm_compute. reflexivity.
  - apply (proj2 (proj2 (publish_time_for_api_three_outcomes default_config
             (Scenario.at_ 8 0 0 0) (Scenario.at_ 8 30 0 1) (Scenario.at_ 8 30 0 700)))).
    + discriminate.
    + repeat constructor.
    + unfold DateTime.valid. simpl. lia.
    + unfold DateTime.valid. simpl. lia.
    + reflexivity.
    + reflexivity.
    + reflexivity.
    + reflexivity.
Defined.

(** C2, the claim as first stated fails: the video is ready a fraction of
    a millisecond before the 10:30 slot, far past the 08:00 target; by
    the time the next slot is computed the clock has passed 10:30:00, so
    the code schedules for 13:00, whereas the slot after the completion
    time is 10:30. *)
Lemma publish_time_for_api_reads_clock_again :
  geb (Scenario.at_ 10 29 59 999800) (Scenario.at_ 8 0 0 0) = true
  ∧ (inject_Z (PUBLISH_TOLERANCE_MINUTES default_config)
     < overrun_minutes (Scenario.at_ 8 0 0 0) (Scenario.at_ 10 29 59 999800))%Q
  ∧ publish_time_for_api default_config (Scenario.at_ 8 0 0 0)
      (Scenario.at_ 10 29 59 999800) (Scenario.at_ 10 30 0 300)
    = Ok (Some (Scenario.at_ 13 0 0 0))
  ∧ get_next_publish_time (PUBLISHING_SCHEDULE default_config) (Scenario.at_ 10 29 59 999800)
    = Ok (Scenario.at_ 10 30 0 0)
  ∧ ¬ publish_decision_ok default_config (Scenario.at_ 8 0 0 0)
        (Scenario.at_ 10 29 59 999800) (Scenario.at_ 10 29 59 999800)
        (publish_time_for_api default_config (Scenario.at_ 8 0 0 0)
           (Scenario.at_ 10 29 59 999800) (Scenario.at_ 10 30 0 300)).
Proof.
  assert (Hgt : (inject_Z (PUBLISH_TOLERANCE_MINUTES default_config)
     < overrun_minutes (Scenario.at_ 8 0 0 0) (Scenario.at_ 10 29 59 999800))%Q)
    by (unfold Qlt; vm_compute; reflexivity).
  split; [reflexivity |]. split; [exact Hgt |].
  split; [vm_compute; reflexivity |]. split; [vm_compute; reflexivity |].
  intros (_ & _ & Hthird).
  specialize (Hthird eq_refl Hgt). vm_compute in Hthird. discriminate.
Qed.

(** The example of the specification: slots 08:00 and 20:00, tolerance
    30 minutes.  At 07:00 the next slot is today 08:00; a video ready at
    08:20 is published now; one ready at 09:00 is moved to today 20:00. *)
Example two_slots_a_day :
  get_next_publish_time (PUBLISHING_SCHEDULE Scenario.two_slots) (Scenario.at_ 7 0 0 0)
    = Ok (Scenario.at_ 8 0 0 0)
  ∧ publish_time_for_api Scenario.two_slots (Scenario.at_ 8 0 0 0)
      (Scenario.at_ 8 20 0 0) (Scenario.at_ 8 20 0 700) = Ok None
  ∧ publish_time_for_api Scenario.two_slots (Scenario.at_ 8 0 0 0)
      (Scenario.at_ 9 0 0 0) (Scenario.at_ 9 0 0 700) = Ok (Some (Scenario.at_ 20 0 0 0))
  ∧ get_next_publish_time (PUBLISHING_SCHEDULE Scenario.two_slots) (Scenario.at_ 20 0 0 0)
    = Ok (Scenario.tomorrow_at 8 0 0 0).
Proof. repeat split; vm_compute; reflexivity. Qed.

End PublishTiming.

Section PublishPhaseExamples.
Import MainLoop Uploader.

Lemma publish_and_cleanup_consumes_iff_published_witness :
  (∃ w', publish_and_cleanup default_config Scenario.clock_text (Some Scenario.youtube_up)
           Scenario.job (Scenario.at_ 8 0 0 0) (Scenario.at_ 7 40 0 0) (Scenario.at_ 7 40 0 1)
           Scenario.rendered = Ok w'
         ∧ _assigned w' !! "1k2j3h" = None
         ∧ files w' !! "assets/segments/a_seg1.mp4" = None
         ∧ files w' !! "assets/sessions/20250301_070000/story_1k2j3h/audio.wav" = None)
  ∧ (∃ w', publish_and_cleanup default_config Scenario.clock_text (Some Scenario.youtube_down)
             Scenario.job (Scenario.at_ 8 0 0 0) (Scenario.at_ 7 40 0 0) (Scenario.at_ 7 40 0 1)
             Scenario.rendered = Ok w'
           ∧ _assigned w' = _assigned Scenario.rendered
           ∧ files w' = files Scenario.rendered).
Proof.
  split.
  - destruct (proj2 (proj2 (publish_and_cleanup_consumes_iff_published default_config
                Scenario.clock_text (Some Scenario.youtube_up) Scenario.job
                (Scenario.at_ 8 0 0 0) (Scenario.at_ 7 40 0 0) (Scenario.at_ 7 40 0 1)
                Scenario.rendered)) _ _ _ eq_refl eq_refl eq_refl)
      as (w' & Hrun & Hyes & _).
    destruct (Hyes eq_refl) as (Hun & Hseg & Hdir).
    exists w'. split; [exact Hrun |]. split; [exact Hun |].
    split; [exact (Hseg "assets/segments/a_seg1.mp4" eq_refl) |].
    exact (Hdir "assets/sessions/20250301_070000/story_1k2j3h/audio.wav" eq_refl).
  - destruct (proj2 (proj2 (publish_and_cleanup_consumes_iff_published default_config
                Scenario.clock_text (Some Scenario.youtube_down) Scenario.job
                (Scenario.at_ 8 0 0 0) (Scenario.at_ 7 40 0 0) (Scenario.at_ 7 40 0 1)
                Scenario.rendered)) _ _ _ eq_refl eq_refl eq_refl)
      as (w' & Hrun & _ & Hno & _).
    exists w'. split; [exact Hrun |]. exact (Hno eq_refl).
Defined.

Lemma upload_privacy_follows_decision_witness :
  (∃ w' request,
     publish_and_cleanup default_config Scenario.clock_text (Some Scenario.youtube_up)
       Scenario.job (Scenario.at_ 8 0 0 0) (Scenario.at_ 7 40 0 0) (Scenario.at_ 7 40 0 1)
       Scenario.rendered = Ok w'
     ∧ youtube_requests w' = [request]
     ∧ privacyStatus (status (body request)) = "private"
     ∧ publishAt (status (body request)) = Some "8:0")
  ∧ (∃ w' request,
       publish_and_cleanup default_config Scenario.clock_text (Some Scenario.youtube_up)
         Scenario.job (Scenario.at_ 8 0 0 0) (Scenario.at_ 8 20 0 0) (Scenario.at_ 8 20 0 1)
         Scenario.rendered = Ok w'
       ∧ youtube_requests w' = [request]
       ∧ privacyStatus (status (body request)) = "public"
       ∧ publishAt (status (body request)) = None).
Proof.
  split.
  - destruct (upload_privacy_follows_decision default_config Scenario.clock_text
                Scenario.youtube_up Scenario.job
                (Scenario.at_ 8 0 0 0) (Scenario.at_ 7 40 0 0) (Scenario.at_ 7 40 0 1)
                Scenario.rendered (Some (Scenario.at_ 8 0 0 0)) eq_refl eq_refl)
      as (w' & request & Hrun & Hreq & _ & Hpriv & Hat).
    exists w', request. split; [exact Hrun |]. split; [exact Hreq |].
    split; [exact Hpriv | exact Hat].
  - destruct (upload_privacy_follows_decision default_config Scenario.clock_text
                Scenario.youtube_up Scenario.job
                (Scenario.at_ 8 0 0 0) (Scenario.at_ 8 20 0 0) (Scenario.at_ 8 20 0 1)
                Scenario.rendered None eq_refl eq_refl)
      as (w' & request & Hrun & Hreq & _ & Hpriv & Hat).
    exists w', request. split; [exact Hrun |]. split; [exact Hreq |].
    split; [exact Hpriv | exact Hat].
Defined.

End PublishPhaseExamples.

(** ** Quality gate *)

Section Gate.
Import QualityGate Spec.
Context (cfg : Config).

Lemma motion_percent_total prev gray :
  length prev = length gray → (0 < length gray)%nat →
  ∃ q, motion_percent prev gray = Ok q.
Proof.
  intros Hlen Hpos. unfold motion_percent. rewrite Hlen, Nat.eqb_refl. simpl.
  destruct prev, gray; simpl in *; try lia. by eexists.
Qed.

(** Positions whose read reports failure leave no trace in the loop. *)
Lemma sample_frames_skips_unreadable cap frame_indices prev_gray bv ms :
  sample_frames cap frame_indices prev_gray bv ms
  = sample_frames cap (filter (readable cap) frame_indices) prev_gray bv ms.
Proof.
  revert prev_gray bv ms.
  induction frame_indices as [|idx rest IH]; intros prev_gray bv ms; [done |].
  rewrite filter_cons. destruct (decide (readable cap idx)) as [Hr | Hr].
  - cbn [sample_frames]. destruct (read cap idx) as [gray | | msg]; [| done | done].
    destruct prev_gray as [prev|]; simpl.
    + destruct (motion_percent prev gray); simpl; [apply IH | done].
    + apply IH.
  - cbn [sample_frames]. unfold readable in Hr.
    destruct (read cap idx); [by destruct Hr | apply IH | by destruct Hr].
Qed.

(** An exception at a sampled position ends the loop with that exception,
    when the positions before it were skipped or gave frames of one
    size. *)
Lemma sample_frames_raises cap size pre idx post msg prev_gray bv ms :
  (0 < size)%nat →
  read cap idx = CvRaise msg →
  (∀ j, j ∈ pre → read cap j = NoFrame
                  ∨ ∃ gray, read cap j = Frame gray ∧ length gray = size) →
  (∀ prev, prev_gray = Some prev → length prev = size) →
  sample_frames cap (pre ++ idx :: post) prev_gray bv ms = Raise (RuntimeError msg).
Proof.
  intros Hsize Hidx. revert prev_gray bv ms.
  induction pre as [|j pre IH]; intros prev_gray bv ms Hpre Hprev.
  - simpl. by rewrite Hidx.
  - cbn [app sample_frames].
    destruct (Hpre j) as [Hj | (gray & Hj & Hlen)]; [left | |]; rewrite Hj.
    + apply IH; [| done]. intros k Hk. apply Hpre. by right.
    + assert (Hrest : ∀ k, k ∈ pre → read cap k = NoFrame
                ∨ ∃ g, read cap k = Frame g ∧ length g = size).
      { intros k Hk. apply Hpre. by right. }
      destruct prev_gray as [prev|]; simpl.
      * destruct (motion_percent_total prev gray) as [q Hq].
        { rewrite Hlen. by apply Hprev. }
        { lia. }
        rewrite Hq. simpl. apply IH; [done |]. by intros ? [= <-].
      * apply IH; [done |]. by intros ? [= <-].
Qed.

(** C7 (as amended): in the gate, an exception raised while a sampled
    frame is read or processed is a hard rejection whose reason is the
    text of the error; a sampled position whose read merely reports
    failure is skipped, and the verdict is the one computed from the
    positions that could be read. *)
Theorem is_segment_high_quality_read_failures cap frame_indices :
  ENABLE_QUALITY_VALIDATION cfg = true →
  isOpened cap = true →
  (VALIDATION_FRAME_SAMPLES cfg ≤ CAP_PROP_FRAME_COUNT cap)%Z →
  linspace_int (CAP_PROP_FRAME_COUNT cap - 1) (VALIDATION_FRAME_SAMPLES cfg)
    = Ok frame_indices →
  (∀ size pre idx post msg,
      (0 < size)%nat →
      frame_indices = (pre ++ idx :: post)%list →
      read cap idx = CvRaise msg →
      (∀ j, j ∈ pre → read cap j = NoFrame
                      ∨ ∃ gray, read cap j = Frame gray ∧ length gray = size) →
      is_segment_high_quality cfg cap = (false, ExceptionText msg))
  ∧ is_segment_high_quality cfg cap
    = match sample_frames cap (filter (readable cap) frame_indices) None [] [] with
      | Ok (brightness_values, motion_scores) => judge cfg brightness_values motion_scores
      | Raise e => (false, ExceptionText (str_of_exn e))
      end.
Proof.
  intros Hon Hopen Hcount Hidx.
  assert (Hgate : is_segment_high_quality cfg cap
    = match sample_frames cap frame_indices None [] [] with
      | Ok (brightness_values, motion_scores) => judge cfg brightness_values motion_scores
      | Raise e => (false, ExceptionText (str_of_exn e))
      end).
  { unfold is_segment_high_quality, evaluate. rewrite Hon, Hopen. simpl.
    assert (Hlt : (CAP_PROP_FRAME_COUNT cap <? VALIDATION_FRAME_SAMPLES cfg)%Z = false)
      by lia.
    rewrite Hlt, Hidx. simpl.
    destruct (sample_frames cap frame_indices None [] []) as [[bv ms]|e]; done. }
  split.
  - intros size pre idx post msg Hsize -> Hraise Hpre.
    rewrite Hgate, (sample_frames_raises cap size pre idx post msg); done.
  - by rewrite Hgate, sample_frames_skips_unreadable.
Qed.

End Gate.

Section GateExamples.
Import QualityGate.

Lemma is_segment_high_quality_read_failures_witness :
  is_segment_high_quality default_config Scenario.clip_with_broken_frame
    = (false, ExceptionText "Unknown C++ exception from OpenCV code")
  ∧ is_segment_high_quality default_config Scenario.clip_with_unreadable_frame
    = match sample_frames Scenario.clip_with_unreadable_frame [1; 2; 3; 4]%Z None [] [] with
      | Ok (brightness_values, motion_scores) =>
          judge default_config brightness_values motion_scores
      | Raise e => (false, ExceptionText (str_of_exn e))
      end.
Proof.
  split.
  - apply (proj1 (is_segment_high_quality_read_failures default_config
                    Scenario.clip_with_broken_frame [0; 1; 2; 3; 4]%Z
                    eq_refl eq_refl ltac:(simpl; lia) eq_refl)
             1%nat [0; 1; 2]%Z 3%Z [4]%Z).
    + lia.
    + reflexivity.
    + reflexivity.
    + intros j Hj. right.
      apply elem_of_cons in Hj as [-> | Hj]; [by exists [200%Z] |].
      apply elem_of_cons in Hj as [-> | Hj]; [by exists [100%Z] |].
      apply elem_of_cons in Hj as [-> | Hj]; [by exists [200%Z] |].
      by apply not_elem_of_nil in Hj.
  - exact (proj2 (is_segment_high_quality_read_failures default_config
                    Scenario.clip_with_unreadable_frame [0; 1; 2; 3; 4]%Z
                    eq_refl eq_refl ltac:(simpl; lia) eq_refl)).
Defined.

(** C7, the claim as first stated fails: the read at sampled position 0
    fails, and the segment is accepted all the same. *)
Lemma unreadable_frame_is_not_rejected :
  linspace_int (CAP_PROP_FRAME_COUNT Scenario.clip_with_unreadable_frame - 1)
    (VALIDATION_FRAME_SAMPLES default_config) = Ok [0; 1; 2; 3; 4]%Z
  ∧ read Scenario.clip_with_unreadable_frame 0 = NoFrame
  ∧ is_segment_high_quality default_config Scenario.clip_with_unreadable_frame
    = (true, ReasonOK).
Proof. split; [reflexivity |]. split; [reflexivity |]. vm_compute. reflexivity. Qed.

End GateExamples.

(** ** Segmentation and the deduplication log *)

Section Segmentation.
Import Segmenter.
Context (cfg : Config) (env : Env).

(** C5 (as amended): with trimming enabled, a raw video whose duration
    minus the two trims is shorter than one segment is skipped: no
    segment is cut from it, and the world is left as it was, so the raw
    file stays on disk and its id is not appended to the processed log. *)
Theorem too_short_video_is_skipped video_name duration w :
  ENABLE_VIDEO_TRIMMING cfg = true →
  get_video_duration env (Path.joinpath (RAW_VIDEOS_FOLDER cfg) video_name) = Ok duration →
  (duration - inject_Z (TRIM_START_SECONDS cfg) - inject_Z (TRIM_END_SECONDS cfg)
   < inject_Z (SEGMENT_DURATION_SECONDS cfg))%Q →
  try_except (process_video cfg env video_name) w = w.
Proof.
  intros Htrim Hdur Hshort.
  unfold try_except, process_video, trim_video. rewrite Htrim.
  unfold mbind, io_bind, lift. rewrite Hdur.
  rewrite (Qle_bool_false _ _ Hshort). reflexivity.
Qed.

End Segmentation.

(** *** The log after a rewrite by the downloader and an append by the
    segmenter *)

Section LogFormat.
Import Spec.

Lemma append_cons c s1 s2 : String c s1 +:+ s2 = String c (s1 +:+ s2).
Proof. reflexivity. Qed.

Lemma append_nil_r s : s +:+ "" = s.
Proof. induction s as [|c s IH]; [done |]. by rewrite append_cons, IH. Qed.

Lemma append_assoc s1 s2 s3 : (s1 +:+ s2) +:+ s3 = s1 +:+ (s2 +:+ s3).
Proof. induction s1 as [|c s1 IH]; [done |]. by rewrite !append_cons, IH. Qed.

Lemma append_length s1 s2 :
  String.length (s1 +:+ s2) = (String.length s1 + String.length s2)%nat.
Proof. induction s1 as [|c s1 IH]; [done |]. rewrite append_cons. simpl. by rewrite IH. Qed.

Lemma rev_app_rev_app a b c :
  String.rev_app (String.rev_app a b) c = String.rev_app b (a +:+ c).
Proof.
  revert b c. induction a as [|x a IH]; intros b c; simpl; [done |].
  by rewrite IH.
Qed.

Lemma rev_involutive s : String.rev (String.rev s) = s.
Proof. unfold String.rev. rewrite rev_app_rev_app. simpl. apply append_nil_r. Qed.

Lemma no_linebreak_app s1 s2 :
  no_linebreak s1 = true → no_linebreak s2 = true → no_linebreak (s1 +:+ s2) = true.
Proof.
  intros H1 H2. induction s1 as [|c s1 IH]; simpl in *; [done |].
  apply andb_true_iff in H1 as [Hc H1]. rewrite Hc. simpl. by apply IH.
Qed.

(** Reading on through a piece without line breaks. *)
Lemma splitlines_aux_piece x cur rest :
  no_linebreak x = true →
  splitlines_aux cur (x +:+ rest) = splitlines_aux (String.rev_app x cur) rest.
Proof.
  revert cur. induction x as [|c x IH]; intros cur Hx; simpl in *; [done |].
  apply andb_true_iff in Hx as [Hc Hx]. apply negb_true_iff in Hc.
  rewrite Hc. by apply IH.
Qed.

(** A line without line breaks, closed by a newline, reads back as
    itself. *)
Lemma splitlines_line x rest :
  no_linebreak x = true →
  splitlines (x +:+ LF +:+ rest) = x :: splitlines rest.
Proof.
  intros Hx. unfold splitlines. rewrite splitlines_aux_piece by done.
  change (LF +:+ rest) with (String "010" rest). cbn [splitlines_aux].
  change (is_linebreak "010") with true. cbn match.
  fold (String.rev x). by rewrite rev_involutive.
Qed.

(** What is read back after the ids [init ++ [last]] were written joined
    by newlines and [stem] plus a newline was appended: the last id and
    the stem form one line. *)
Lemma splitlines_join_append init last stem :
  Forall (λ x, no_linebreak x = true) (init ++ [last])%list →
  no_linebreak stem = true →
  splitlines (join LF (init ++ [last])%list +:+ stem +:+ LF)
  = (init ++ [last +:+ stem])%list.
Proof.
  intros Hall Hstem. induction init as [|x init IH].
  - simpl in *. inversion Hall as [|? ? Hlast _]; subst.
    rewrite <- append_assoc, <- (append_nil_r LF).
    rewrite splitlines_line by by apply no_linebreak_app. done.
  - inversion Hall as [|? ? Hx Hrest]; subst.
    assert (Hjoin : join LF ((x :: init) ++ [last])%list
                    = x +:+ LF +:+ join LF (init ++ [last])%list).
    { simpl. by destruct (init ++ [last])%list eqn:E; [destruct init |]. }
    rewrite Hjoin, !append_assoc, splitlines_line by done.
    rewrite IH by done. done.
Qed.

(** The general form of the defect behind C6: once the downloader has
    rewritten the log from a non-empty set, the next id the segmenter
    appends is glued to the id written last, which is then no longer
    found in the log. *)
Lemma rewrite_then_append_loses_last_id env ids init last stem w :
  ids ≠ ∅ →
  set_iteration env ids = (init ++ [last])%list →
  Forall (λ x, no_linebreak x = true) (init ++ [last])%list →
  no_linebreak stem = true →
  stem ≠ "" →
  last ∉ init →
  let w1 := Downloader.save_processed_ids env ids w in
  let w2 := (Segmenter.mark_as_processed stem w1).2 in
  load_processed_ids w2 = list_to_set (init ++ [last +:+ stem])%list
  ∧ ¬ logged w2 last.
Proof.
  intros Hne Hiter Hall Hstem Hnonempty Hfresh w1 w2.
  assert (Hlog : load_processed_ids w2 = list_to_set (init ++ [last +:+ stem])%list).
  { unfold w2, w1, Downloader.save_processed_ids, Segmenter.mark_as_processed, modify,
      load_processed_ids.
    destruct (decide (ids = ∅)) as [|_]; [done |]. simpl.
    by rewrite Hiter, splitlines_join_append. }
  split; [done |].
  unfold logged. rewrite Hlog, elem_of_list_to_set, elem_of_app, list_elem_of_singleton.
  intros [Hin | Heq]; [done |].
  apply (f_equal String.length) in Heq. rewrite append_length in Heq.
  destruct stem; [done | simpl in Heq; lia].
Qed.

End LogFormat.

Section SegmentationExamples.
Import Segmenter Downloader.

Lemma too_short_video_is_skipped_witness :
  try_except (process_video default_config Scenario.tools "short.mp4") Scenario.raw_library
  = Scenario.raw_library.
Proof.
  apply (too_short_video_is_skipped default_config Scenario.tools "short.mp4" (100 # 1)).
  - reflexivity.
  - reflexivity.
  - unfold Qlt. vm_compute. reflexivity.
Defined.

(** C5, the claim as first stated fails: short.mp4 lasts 100 s, which
    leaves 40 s after the two 30 s trims, less than one 120 s segment;
    it is among the videos to process, and after the batch it is still
    in the raw folder (and no segment came from it, and it is not in the
    log). *)
Lemma too_short_video_is_not_deleted :
  "short.mp4" ∈ videos_to_process default_config Scenario.raw_library
  ∧ get_video_duration Scenario.tools "assets/raw_videos/short.mp4" = Ok (100 # 1)
  ∧ ((100 # 1) - inject_Z (TRIM_START_SECONDS default_config)
     - inject_Z (TRIM_END_SECONDS default_config)
     < inject_Z (SEGMENT_DURATION_SECONDS default_config))%Q
  ∧ files (process_new_videos_into_segments default_config Scenario.tools Scenario.raw_library)
      !! "assets/raw_videos/short.mp4" = Some 5000000%N
  ∧ processed_videos_log
      (process_new_videos_into_segments default_config Scenario.tools Scenario.raw_library)
    = Some ("intro" +:+ LF).
Proof.
  split; [vm_compute; set_solver |].
  split; [reflexivity |].
  split; [unfold Qlt; vm_compute; reflexivity |].
  split; vm_compute; reflexivity.
Qed.

(** C6 (the code at the failing input): the downloader fetches video
    "abc" and rewrites the log as "abc", with no newline at the end; the
    segmenter then processes intro.mp4 and appends "intro" and a newline.
    The log now reads "abcintro": one line holding two ids, and neither
    "abc" nor "intro" is found in it any more. *)
Theorem dedup_log_loses_ids :
  let w1 := download_new_source_videos default_config Scenario.tools 1 Scenario.raw_library in
  let w2 := process_new_videos_into_segments default_config Scenario.tools w1 in
  processed_videos_log w1 = Some "abc"
  ∧ Spec.logged w1 "abc"
  ∧ processed_videos_log w2 = Some ("abcintro" +:+ LF)
  ∧ load_processed_ids w2 = {["abcintro"]}
  ∧ ¬ Spec.logged w2 "abc"
  ∧ ¬ Spec.logged w2 "intro".
Proof.
  intros w1 w2.
  assert (H1 : load_processed_ids w1 = {["abc"]}) by (vm_compute; reflexivity).
  assert (H2 : load_processed_ids w2 = {["abcintro"]}) by (vm_compute; reflexivity).
  unfold Spec.logged. rewrite H1, H2.
  split; [vm_compute; reflexivity |].
  split; [set_solver |].
  split; [vm_compute; reflexivity |].
  split; [reflexivity |].
  split; intros Hin%elem_of_singleton; discriminate.
Qed.

End SegmentationExamples.

(* ================================================================= *)
(** * Further properties of the code *)

(** ** Allocator: consume, frames, and the pool under sequential jobs *)

Section AllocatorMore.
Import SegmentManager Jobs.
Context (cfg : Config).

(** X1: consuming is idempotent: a second [consume_segment] for the same
    story changes nothing, and consuming a story that holds no segment is
    a no-op. *)
Theorem consume_segment_twice story_id w :
  consume_segment story_id (consume_segment story_id w) = consume_segment story_id w
  ∧ (_assigned w !! story_id = None → consume_segment story_id w = w).
Proof.
  assert (Hnone : ∀ w', _assigned w' !! story_id = None → consume_segment story_id w' = w').
  { intros w' H. unfold consume_segment. by rewrite H. }
  split; [| apply Hnone].
  apply Hnone. unfold consume_segment.
  destruct (_assigned w !! story_id) as [path|] eqn:Hs; [| done].
  destruct (Path.exists_ path _); simpl; apply lookup_delete_eq.
Qed.

(** X2: [consume_segment] removes the story's entry and the story's
    segment file and nothing else: every other assignment, every other
    file, the log and the upload history stay as they were. *)
Theorem consume_segment_frame story_id segment w :
  _assigned w !! story_id = Some segment →
  _assigned (consume_segment story_id w) = delete story_id (_assigned w)
  ∧ files (consume_segment story_id w) = delete segment (files w)
  ∧ (∀ other, other ≠ story_id →
       _assigned (consume_segment story_id w) !! other = _assigned w !! other)
  ∧ (∀ path, path ≠ segment → files (consume_segment story_id w) !! path = files w !! path)
  ∧ processed_videos_log (consume_segment story_id w) = processed_videos_log w
  ∧ youtube_requests (consume_segment story_id w) = youtube_requests w.
Proof.
  intros Hs. unfold consume_segment. rewrite Hs.
  assert (Hfiles : files (if Path.exists_ segment (files (set_assigned (delete story_id (_assigned w)) w))
                          then set_files (delete segment (files (set_assigned (delete story_id (_assigned w)) w)))
                                 (set_assigned (delete story_id (_assigned w)) w)
                          else set_assigned (delete story_id (_assigned w)) w)
                   = delete segment (files w)).
  { destruct (Path.exists_ segment _) eqn:Hex; simpl; [done |].
    unfold Path.exists_ in Hex. apply bool_decide_eq_false in Hex. simpl in Hex.
    symmetry. apply delete_id. by apply eq_None_not_Some. }
  split; [by destruct (Path.exists_ segment _) |].
  split; [done |].
  split.
  { intros other Hne. destruct (Path.exists_ segment _); simpl; by rewrite lookup_delete_ne. }
  split.
  { intros path Hne. rewrite Hfiles. by rewrite lookup_delete_ne. }
  split; by destruct (Path.exists_ segment _).
Qed.

(** X3: [get_segment] never touches the disk, the log or the upload
    history, and never changes what another story holds; the only change
    it can make is to record the segment it returns for the asking
    story. *)
Theorem get_segment_frame story_id r w segment w' :
  get_segment cfg story_id r w = Ok (segment, w') →
  files w' = files w
  ∧ processed_videos_log w' = processed_videos_log w
  ∧ youtube_requests w' = youtube_requests w
  ∧ _assigned w' !! story_id = Some segment
  ∧ (∀ other, other ≠ story_id → _assigned w' !! other = _assigned w !! other).
Proof.
  unfold get_segment. destruct (_assigned w !! story_id) as [s|] eqn:Hs.
  - intros [= <- <-]. done.
  - destruct (_select_valid_segment cfg r w) as [p|e]; simpl; [| done].
    intros [= <- <-]. simpl. repeat split; [apply lookup_insert_eq |].
    intros other Hne. by rewrite lookup_insert_ne.
Qed.

Lemma NoDup_available w : NoDup (available cfg w).
Proof.
  unfold available, Path.glob_mp4. apply NoDup_filter, NoDup_filter, NoDup_map_to_list.
Qed.

(** The pool after one of its segments was deleted. *)
Lemma available_delete w segment sz :
  (segment, sz) ∈ available cfg w →
  available cfg w ≡ₚ (segment, sz) :: available cfg (set_files (delete segment (files w)) w).
Proof.
  intros Hin. apply NoDup_Permutation.
  - apply NoDup_available.
  - constructor; [| apply NoDup_available].
    rewrite elem_of_available. simpl. rewrite lookup_delete_eq. by intros [? _].
  - intros [p sz']. rewrite elem_of_cons, !elem_of_available. simpl.
    apply elem_of_available in Hin as (Hf & Hm & Hsz). split.
    + intros (Hf' & Hm' & Hsz'). destruct (decide (p = segment)) as [-> | Hne].
      * left. rewrite Hf in Hf'. by injection Hf' as <-.
      * right. by rewrite lookup_delete_ne.
    + intros [[= -> ->] | (Hf' & Hm' & Hsz')]; [done |].
      destruct (decide (p = segment)) as [-> | Hne];
        [by rewrite lookup_delete_eq in Hf' | by rewrite lookup_delete_ne in Hf'].
Qed.

(** One job on a story that holds nothing: it is given a size-valid
    segment, and afterwards that file is gone and the map is as before. *)
Lemma assign_and_consume_fresh story_id r w segment w' :
  _assigned w !! story_id = None →
  assign_and_consume cfg story_id r w = Ok (segment, w') →
  ∃ sz, (segment, sz) ∈ available cfg w ∧ w' = set_files (delete segment (files w)) w.
Proof.
  intros Hfresh. unfold assign_and_consume. rewrite get_segment_fresh by done.
  destruct (_select_valid_segment cfg r w) as [p|e] eqn:Hsel; simpl; [| done].
  intros [= <- <-].
  destruct (select_valid_segment_ok _ _ _ _ Hsel) as (sz & Hf & Hm & Hsz).
  exists sz. split; [by apply elem_of_available |].
  unfold consume_segment. simpl. rewrite lookup_insert_eq.
  assert (Hex : Path.exists_ p (files w) = true).
  { unfold Path.exists_. apply bool_decide_eq_true. by eexists. }
  simpl. rewrite Hex. unfold set_files, set_assigned. simpl.
  by rewrite delete_insert_id.
Qed.

(** X4: under the discipline of the loop, where a job is given a segment
    and consumes it before the next job starts, a pool of n size-valid
    segments serves exactly n jobs: each job gets a size-valid segment,
    no two jobs get the same one, the files given out are gone and the
    assignment map ends as it began; with more jobs than segments the
    run ends in ValueError "No valid segments available.". *)
Theorem serve_uses_one_segment_each jobs w :
  (∀ story_id r, (story_id, r) ∈ jobs → _assigned w !! story_id = None) →
  ((length jobs ≤ length (available cfg w))%nat →
   ∃ segments w',
     serve cfg jobs w = Ok (segments, w')
     ∧ length segments = length jobs
     ∧ NoDup segments
     ∧ (∀ s, s ∈ segments → Spec.size_valid cfg w s ∧ files w' !! s = None)
     ∧ length (available cfg w') = (length (available cfg w) - length jobs)%nat
     ∧ files w' ⊆ files w
     ∧ _assigned w' = _assigned w)
  ∧ ((length (available cfg w) < length jobs)%nat →
     serve cfg jobs w = Raise (ValueError "No valid segments available.")).
Proof.
  revert w. induction jobs as [|[story_id r] jobs IH]; intros w Hfresh.
  { split; [| simpl; lia]. intros _. exists [], w. simpl.
    split; [done |]. split; [done |]. split; [constructor |].
    split; [by intros s Hs%not_elem_of_nil |]. split; [lia | done]. }
  assert (Hhead : _assigned w !! story_id = None) by (apply (Hfresh story_id r); left).
  destruct (available cfg w) as [|entry pool] eqn:Hpool.
  { split; [simpl; lia |]. intros _. cbn [serve]. unfold assign_and_consume.
    rewrite get_segment_fresh, select_valid_segment_none by done. done. }
  destruct (select_valid_segment_total cfg r w) as [p Hsel]; [by rewrite Hpool |].
  assert (Hjob : ∃ w1, assign_and_consume cfg story_id r w = Ok (p, w1)).
  { unfold assign_and_consume. rewrite get_segment_fresh, Hsel by done. simpl. eauto. }
  destruct Hjob as [w1 Hjob].
  destruct (assign_and_consume_fresh _ _ _ _ _ Hhead Hjob) as (sz & Hin & ->).
  set (w1 := set_files (delete p (files w)) w) in *.
  pose proof (available_delete w p sz Hin) as Hperm.
  assert (Hlen : length (available cfg w) = S (length (available cfg w1))).
  { by rewrite Hperm. }
  rewrite Hpool in Hlen. simpl in Hlen.
  assert (Hsub : ∀ s, Spec.size_valid cfg w1 s → Spec.size_valid cfg w s ∧ s ≠ p).
  { intros s (sz' & Hf & Hm & Hsz). unfold w1 in Hf. simpl in Hf.
    apply lookup_delete_Some in Hf as [Hne Hf]. split; [by exists sz' | done]. }
  destruct (IH w1) as [IHok IHfail].
  { intros s' r' Hin'. simpl. apply (Hfresh s' r'). by right. }
  cbn [serve]. rewrite Hjob. simpl. split.
  - intros Hle.
    destruct IHok as (segments & w' & Hserve & Hlen' & Hnd & Hvalid & Hcount & Hfiles & Hmap);
      [lia |].
    rewrite Hserve. simpl. exists (p :: segments), w'.
    split; [done |]. split; [simpl; by rewrite Hlen' |]. split.
    { constructor; [| done]. intros Hp. by destruct (Hsub p (proj1 (Hvalid p Hp))). }
    split.
    { intros s [-> | Hs]%elem_of_cons.
      - split; [apply elem_of_available in Hin as (? & ? & ?); by exists sz |].
        eapply lookup_weaken_None; [| exact Hfiles]. apply lookup_delete_eq.
      - destruct (Hvalid s Hs) as [Hv Hgone]. split; [apply (Hsub s Hv) | done]. }
    split; [lia |]. split; [| done].
    etrans; [exact Hfiles | apply delete_subseteq].
  - intros Hlt. rewrite IHfail by lia. done.
Qed.

End AllocatorMore.

Section AllocatorMoreExamples.
Import SegmentManager Jobs.

Lemma consume_segment_frame_witness :
  files (consume_segment "1k2j3h" Scenario.rendered) !! "assets/segments/a_seg1.mp4" = None
  ∧ files (consume_segment "1k2j3h" Scenario.rendered) !! "assets/segments/b_seg1.mp4"
    = Some 300000%N.
Proof.
  destruct (consume_segment_frame "1k2j3h" "assets/segments/a_seg1.mp4" Scenario.rendered
              eq_refl) as (_ & Hfiles & _ & Hother & _).
  split.
  - rewrite Hfiles. apply lookup_delete_eq.
  - rewrite (Hother "assets/segments/b_seg1.mp4") by discriminate. reflexivity.
Defined.

Lemma get_segment_frame_witness :
  ∃ w', get_segment default_config "story_9" 0 Scenario.rendered
        = Ok ("assets/segments/a_seg1.mp4", w')
      ∧ files w' = files Scenario.rendered
      ∧ _assigned w' !! "1k2j3h" = Some "assets/segments/a_seg1.mp4".
Proof.
  eexists. split; [vm_compute; reflexivity |].
  match goal with |- files ?w' = _ ∧ _ =>
    destruct (get_segment_frame default_config "story_9" 0 Scenario.rendered
                "assets/segments/a_seg1.mp4" w' ltac:(vm_compute; reflexivity))
      as (Hf & _ & _ & _ & Hother)
  end.
  split; [exact Hf |]. rewrite Hother by discriminate. reflexivity.
Defined.

Lemma consume_segment_twice_witness :
  consume_segment "story_9" Scenario.rendered = Scenario.rendered.
Proof.
  apply (proj2 (consume_segment_twice "story_9" Scenario.rendered)). reflexivity.
Defined.

End AllocatorMoreExamples.

Lemma serve_uses_one_segment_each_witness :
  (∃ segments w',
     Jobs.serve default_config [("story_1", 0%nat); ("story_2", 5%nat); ("story_3", 1%nat)]
       Scenario.pool = Ok (segments, w')
     ∧ NoDup segments
     ∧ length (SegmentManager.available default_config w') = 0%nat)
  ∧ Jobs.serve default_config
      [("story_1", 0%nat); ("story_2", 5%nat); ("story_3", 1%nat); ("story_4", 0%nat)]
      Scenario.pool = Raise (ValueError "No valid segments available.").
Proof.
  split.
  - destruct (proj1 (serve_uses_one_segment_each default_config
                [("story_1", 0%nat); ("story_2", 5%nat); ("story_3", 1%nat)] Scenario.pool
                (λ _ _ _, lookup_empty _)) ltac:(vm_compute; lia))
      as (segments & w' & Hserve & _ & Hnd & _ & Hcount & _).
    exists segments, w'. split; [exact Hserve |]. split; [exact Hnd |].
    rewrite Hcount. vm_compute. reflexivity.
  - apply (proj2 (serve_uses_one_segment_each default_config
                [("story_1", 0%nat); ("story_2", 5%nat); ("story_3", 1%nat); ("story_4", 0%nat)]
                Scenario.pool (λ _ _ _, lookup_empty _))).
    vm_compute. lia.
Defined.

(** ** Scheduler: what holds for every schedule, and the cooldown *)

Section SchedulerMore.
Local Open Scope Z_scope.
Import Spec.

Lemma sorted_elem_of schedule s : s ∈ sorted schedule ↔ s ∈ schedule.
Proof. unfold sorted. by rewrite merge_sort_Permutation. Qed.


Lemma replace_inv dt h m t :
  replace dt h m 0 0 = Ok t →
  0 <= h < 24 ∧ 0 <= m < 60 ∧ t = mk_datetime (toordinal dt) h m 0 0 (utcoffset dt).
Proof.
  unfold replace.
  destruct ((0 <=? h) && (h <? 24)) eqn:Hh; simpl; [| done].
  destruct ((0 <=? m) && (m <? 60)) eqn:Hm; simpl; [| done].
  apply andb_true_iff in Hh as [??]. apply andb_true_iff in Hm as [??].
  intros [= <-]. split_and!; [lia.. | done].
Qed.

(** What the loop over today's slots returns, for any list of strings. *)
Lemma first_slot_today_inv now l r :
  first_slot_today now l = Ok r →
  match r with
  | Some t => ∃ s, s ∈ l ∧ occurrence now (toordinal now) s = Some t ∧ ltb now t = true
  | None => ∀ s, s ∈ l → ∃ t, occurrence now (toordinal now) s = Some t ∧ ltb now t = false
  end.
Proof.
  revert r. induction l as [|s l IH]; intros r.
  - intros [= <-]. by intros s Hs%not_elem_of_nil.
  - cbn [first_slot_today].
    destruct (parse_hour_minute s) as [[h m]|e] eqn:Hp; simpl; [| done].
    destruct (replace now h m 0 0) as [t|e] eqn:Hr; simpl; [| done].
    destruct (replace_inv _ _ _ _ Hr) as (Hh & Hm & ->).
    pose proof (occurrence_slot now (toordinal now) s h m Hp Hh Hm) as Hocc.
    unfold gtb. destruct (ltb now _) eqn:Hlt.
    + intros [= <-]. exists s. split; [left | done].
    + intros Hrest. specialize (IH r Hrest). destruct r as [t|].
      * destruct IH as (s' & Hin & Ho & Hl). exists s'. split; [by right | done].
      * intros s' [-> | Hin]%elem_of_cons; [eauto | by apply IH].
Qed.

Lemma next_publish_time_ahead schedule now t :
  DateTime.valid now →
  get_next_publish_time schedule now = Ok t →
  is_occurrence schedule now t
  ∧ (toordinal t = toordinal now ∨ toordinal t = toordinal now + 1)
  ∧ utc_us now < utc_us t <= utc_us now + 24 * 3600 * 1000000.
Proof.
  intros (Hh & Hm & Hs & Hus). unfold get_next_publish_time.
  destruct (first_slot_today now (sorted schedule)) as [r|e] eqn:Hscan; simpl; [| done].
  apply first_slot_today_inv in Hscan.
  assert (Hnow : utc_us now
                 = (((toordinal now * 24 + hour now) * 60 + minute now) * 60 + second now)
                   * 1000000 + microsecond now - utcoffset now * 60 * 1000000)
    by reflexivity.
  destruct r as [t'|].
  - intros [= <-]. destruct Hscan as (s & Hin & Hocc & Hlt).
    rewrite sorted_elem_of in Hin.
    split; [exists s, (toordinal now); split; assumption |].
    unfold occurrence in Hocc.
    destruct (parse_hour_minute s) as [[h m]|]; [| done].
    destruct (replace _ h m 0 0) as [x|] eqn:Hr; [| done].
    injection Hocc as <-. destruct (replace_inv _ _ _ _ Hr) as (Hhr & Hmr & ->).
    simpl in *. split; [by left |].
    apply ltb_iff in Hlt. rewrite utc_us_mk in *. lia.
  - destruct (sorted schedule) as [|first rest] eqn:HL; [done |].
    destruct (parse_hour_minute first) as [[h m]|e] eqn:Hp; simpl; [| done].
    intros Hr. destruct (replace_inv _ _ _ _ Hr) as (Hhr & Hmr & ->). simpl.
    assert (Hin : first ∈ schedule) by (apply sorted_elem_of; rewrite HL; left).
    split.
    { exists first, (toordinal now + 1). split; [done |]. by apply occurrence_slot. }
    split; [by right |].
    destruct (Hscan first) as (t0 & Hocc0 & Hlt0); [left |].
    rewrite (occurrence_slot now (toordinal now) first h m Hp Hhr Hmr) in Hocc0.
    injection Hocc0 as <-. apply ltb_false_iff in Hlt0.
    rewrite utc_us_mk in *. lia.
Qed.

(** X5: whatever the schedule holds (unsorted, unpadded, even partly
    malformed), a time returned by [get_next_publish_time] is an
    occurrence of one of its slots, today or tomorrow, strictly after now
    and at most 24 hours after now. *)
Theorem get_next_publish_time_is_ahead schedule now t :
  DateTime.valid now →
  get_next_publish_time schedule now = Ok t →
  is_occurrence schedule now t
  ∧ (toordinal t = toordinal now ∨ toordinal t = toordinal now + 1)
  ∧ utc_us now < utc_us t <= utc_us now + 24 * 3600 * 1000000.
Proof. apply next_publish_time_ahead. Qed.

Lemma get_next_publish_time_is_ahead_witness :
  is_occurrence ["8:00"; "10:30"] (Scenario.at_ 7 0 0 0) (Scenario.at_ 10 30 0 0)
  ∧ utc_us (Scenario.at_ 7 0 0 0) < utc_us (Scenario.at_ 10 30 0 0).
Proof.
  destruct (get_next_publish_time_is_ahead ["8:00"; "10:30"] (Scenario.at_ 7 0 0 0)
              (Scenario.at_ 10 30 0 0)
              ltac:(unfold DateTime.valid; simpl; lia) eq_refl) as (Hocc & _ & Hlt & _).
  split; [exact Hocc | exact Hlt].
Defined.

(** X6: on a zero-padded schedule the next slot never moves backwards as
    the clock advances: a later reading gives the same slot or a later
    one. *)
Theorem get_next_publish_time_monotone schedule now later t t' :
  schedule ≠ [] →
  Forall (λ s, is_hh_mm s = true) schedule →
  DateTime.valid now → DateTime.valid later →
  utcoffset later = utcoffset now →
  leb now later = true →
  get_next_publish_time schedule now = Ok t →
  get_next_publish_time schedule later = Ok t' →
  leb t t' = true.
Proof.
  intros Hne Hall Hnow Hlater Hoff Hle Hget Hget'.
  destruct (next_slot_ok_hh_mm schedule now Hne Hall Hnow) as (t1 & Hget1 & _ & _ & Hmin & _).
  destruct (next_slot_ok_hh_mm schedule later Hne Hall Hlater)
    as (t2 & Hget2 & Hlt2 & Hocc2 & _).
  rewrite Hget in Hget1. injection Hget1 as <-.
  rewrite Hget' in Hget2. injection Hget2 as <-.
  apply Hmin.
  - destruct Hocc2 as (s & day & Hin & Ho). exists s, day. split; [done |].
    unfold occurrence in *. by rewrite <- Hoff.
  - apply leb_iff in Hle. apply ltb_iff in Hlt2. apply ltb_iff. lia.
Qed.

Lemma get_next_publish_time_monotone_witness :
  leb (Scenario.at_ 10 30 0 0) (Scenario.at_ 13 0 0 0) = true.
Proof.
  apply (get_next_publish_time_monotone (PUBLISHING_SCHEDULE default_config)
           (Scenario.at_ 9 0 0 0) (Scenario.at_ 12 0 0 0)).
  - discriminate.
  - repeat constructor.
  - unfold DateTime.valid. simpl. lia.
  - unfold DateTime.valid. simpl. lia.
  - reflexivity.
  - reflexivity.
  - reflexivity.
  - reflexivity.
Defined.

(** X9: the wait phase sleeps at least a minute and never more than 23
    hours plus the time between its two clock readings; it sleeps until
    one hour before the next slot whenever that lies more than a minute
    ahead, and it fails exactly when the scheduler fails. *)
Theorem sleep_duration_bounds cfg now clock :
  DateTime.valid clock →
  leb now clock = true →
  (∀ e, Cooldown.sleep_duration cfg now clock = Raise e
        ↔ get_next_publish_time (PUBLISHING_SCHEDULE cfg) clock = Raise e)
  ∧ ∀ d, Cooldown.sleep_duration cfg now clock = Ok d →
      ∃ t, get_next_publish_time (PUBLISHING_SCHEDULE cfg) clock = Ok t
         ∧ (60 <= d)%Q
         ∧ (d <= 82800 + total_seconds (sub clock now))%Q
         ∧ ((total_seconds (sub t now) <= 3660)%Q → d = 60%Q)
         ∧ ((3660 < total_seconds (sub t now))%Q → d = (total_seconds (sub t now) - 3600)%Q).
Proof.
  intros Hvalid Hle. unfold Cooldown.sleep_duration.
  destruct (get_next_publish_time (PUBLISHING_SCHEDULE cfg) clock) as [t|e0] eqn:Hget; simpl.
  - split; [done |]. intros d [= <-]. exists t. split; [done |].
    destruct (next_publish_time_ahead _ _ _ Hvalid Hget) as (_ & _ & Hlo & Hhi).
    apply leb_iff in Hle.
    assert (Hcmp : ∀ k : Z, (total_seconds (sub t now) - 3600 <= inject_Z k)%Q
                           ↔ sub t now <= (k + 3600) * 1000000).
    { intros k. unfold total_seconds, Qle, Qminus, Qplus, Qopp, inject_Z. simpl. lia. }
    destruct (Qle_bool _ 60) eqn:Hrest.
    + apply Qle_bool_iff in Hrest. apply (Hcmp 60) in Hrest. split_and!.
      * apply Qle_refl.
      * unfold total_seconds, sub, Qle, Qplus. simpl. lia.
      * done.
      * intros Hlt. exfalso. revert Hlt. unfold total_seconds, Qlt. simpl. lia.
    + assert (¬ (total_seconds (sub t now) - 3600 <= inject_Z 60)%Q) as Hnot.
      { intros H%Qle_bool_iff. change (inject_Z 60) with 60%Q in H. congruence. }
      rewrite Hcmp in Hnot. split_and!.
      * unfold total_seconds, Qle, Qminus, Qplus, Qopp. simpl. lia.
      * unfold total_seconds, sub, Qle, Qminus, Qplus, Qopp in *. simpl. lia.
      * intros Hlt. exfalso. revert Hlt. unfold total_seconds, Qle. simpl. lia.
      * done.
  - split; [| done]. intros e. split; intros [= ->]; done.
Qed.

Lemma sleep_duration_bounds_witness :
  ∃ t, get_next_publish_time (PUBLISHING_SCHEDULE default_config) (Scenario.at_ 14 0 1 0) = Ok t
     ∧ (60 <= 10800000000 # 1000000)%Q
     ∧ ((10800000000 # 1000000)
        <= 82800 + total_seconds (sub (Scenario.at_ 14 0 1 0) (Scenario.at_ 14 0 0 0)))%Q
     ∧ ((total_seconds (sub t (Scenario.at_ 14 0 0 0)) <= 3660)%Q
        → (10800000000 # 1000000)%Q = 60%Q)
     ∧ ((3660 < total_seconds (sub t (Scenario.at_ 14 0 0 0)))%Q
        → (10800000000 # 1000000)%Q = (total_seconds (sub t (Scenario.at_ 14 0 0 0)) - 3600)%Q).
Proof.
  apply (proj2 (sleep_duration_bounds default_config (Scenario.at_ 14 0 0 0)
                  (Scenario.at_ 14 0 1 0)
                  ltac:(unfold DateTime.valid; simpl; lia) eq_refl)).
  vm_compute. reflexivity.
Defined.

End SchedulerMore.

(** ** Session cleanup *)

Section SessionsMore.
Import Names Sessions.

Lemma compare_not_Gt_trans a b c :
  String.compare a b ≠ Gt → String.compare b c ≠ Gt → String.compare a c ≠ Gt.
Proof.
  revert b c. induction a as [|x a IH]; intros [|y b] [|z c]; simpl; try done.
  unfold Ascii.compare.
  destruct (N.compare_spec (N_of_ascii x) (N_of_ascii y)) as [Hxy|Hxy|Hxy]; [| | done];
    destruct (N.compare_spec (N_of_ascii y) (N_of_ascii z)) as [Hyz|Hyz|Hyz]; try done;
    destruct (N.compare_spec (N_of_ascii x) (N_of_ascii z)) as [Hxz|Hxz|Hxz];
    try done; try lia.
  apply IH.
Qed.

Lemma str_le_trans : Transitive str_le.
Proof.
  intros a b c. unfold str_le, String.leb. intros Hab Hbc.
  pose proof (compare_not_Gt_trans a b c) as H.
  destruct (String.compare a b), (String.compare b c), (String.compare a c);
    try done; exfalso; by apply H.
Qed.

Lemma str_le_antisymm : AntiSymm eq str_le.
Proof. intros a b. apply String.leb_antisym. Qed.

Lemma strip_prefix_Some pre s rest : strip_prefix pre s = Some rest ↔ s = pre +:+ rest.
Proof.
  revert s. induction pre as [|a pre IH]; intros s; simpl.
  - split; [by intros [= ->] | by intros ->].
  - destruct s as [|b s]; [done |]. rewrite append_cons.
    destruct (Ascii.eqb_spec a b) as [-> | Hne].
    + rewrite IH. split; [by intros -> | by intros [= ->]].
    + split; [done | intros [= ? ?]; by destruct Hne].
Qed.

Lemma prefix_append pre s : String.prefix pre s = true ↔ ∃ rest, s = pre +:+ rest.
Proof.
  revert s. induction pre as [|a pre IH]; intros s; simpl.
  - split; [by exists s | by destruct s].
  - destruct s as [|b s]; simpl; [split; [done | by intros (rest & ?)] |].
    destruct (ascii_dec a b) as [-> | Hne].
    + rewrite IH. split; intros (rest & Heq); exists rest.
      * by rewrite append_cons, Heq.
      * rewrite append_cons in Heq. by injection Heq.
    + split; [done |]. intros (rest & Heq). rewrite append_cons in Heq.
      injection Heq as ? ?. by destruct Hne.
Qed.

Lemma before_slash_Some s d :
  before_slash s = Some d ↔ Path.has_slash d = false ∧ ∃ tail, s = d +:+ "/" +:+ tail.
Proof.
  revert d. induction s as [|c s IH]; intros d; simpl.
  - split; [done |]. intros (_ & tail & Heq). by destruct d.
  - destruct (Ascii.eqb_spec c "/") as [-> | Hne].
    + split.
      * intros [= <-]. split; [done |]. by exists s.
      * intros (Hd & tail & Heq). destruct d as [|x d]; [done |].
        rewrite append_cons in Heq. injection Heq as <- _. done.
    + apply Ascii.eqb_neq in Hne.
      assert (Hcons : ∀ d, Path.has_slash d = false →
                           (∃ tail, String c s = d +:+ "/" +:+ tail) →
                           ∃ d1, d = String c d1 ∧ before_slash s = Some d1).
      { intros [|x d1] Hd (tail & Heq).
        - injection Heq as -> _. by rewrite Ascii.eqb_refl in Hne.
        - rewrite append_cons in Heq. injection Heq as <- Heq.
          simpl in Hd. apply orb_false_iff in Hd as [_ Hd].
          exists d1. split; [done |]. apply IH. eauto. }
      split.
      * destruct (before_slash s) as [d0|] eqn:Hs; simpl; [| done].
        intros [= <-]. destruct (proj1 (IH d0) eq_refl) as (Hd0 & tail & ->).
        simpl. rewrite Hne. split; [done |]. by exists tail.
      * intros (Hd & Htail). destruct (Hcons d Hd Htail) as (d1 & -> & ->). done.
Qed.

Lemma append_inj_l s a b : s +:+ a = s +:+ b → a = b.
Proof.
  induction s as [|c s IH]; [done |]. rewrite !append_cons. intros [= ?]. by apply IH.
Qed.

Lemma slash_split d d' r r' :
  Path.has_slash d = false → Path.has_slash d' = false →
  d +:+ "/" +:+ r = d' +:+ "/" +:+ r' → d = d'.
Proof.
  revert d'. induction d as [|c d IH]; intros [|c' d']; simpl; try done;
    rewrite ?append_cons.
  - intros _ [Hc _]%orb_false_iff [= <- _]. done.
  - intros [Hc _]%orb_false_iff _ [= -> _]. done.
  - intros [_ Hd]%orb_false_iff [_ Hd']%orb_false_iff [= <- Heq]. f_equal. by apply IH.
Qed.

Lemma has_slash_append a b :
  Path.has_slash (a +:+ b) = Path.has_slash a || Path.has_slash b.
Proof.
  induction a as [|c a IH]; [done |]. rewrite append_cons. simpl. rewrite IH.
  by rewrite orb_assoc.
Qed.

(** A file inside subdirectory [d'] of [dir] is below [dir/d] exactly
    when [d] is [d']. *)
Lemma below_subdir dir d p d' :
  Path.has_slash d = false →
  subdir_of dir p = Some d' →
  Path.below (Path.joinpath dir d) p = bool_decide (d = d').
Proof.
  intros Hd. unfold subdir_of.
  destruct (strip_prefix (dir +:+ "/") p) as [rest|] eqn:Hp; simpl; [| done].
  destruct (before_slash rest) as [d0|] eqn:Hr; simpl; [| done].
  destruct (String.eqb d0 ""); [done |]. intros [= ->].
  apply strip_prefix_Some in Hp as ->.
  apply before_slash_Some in Hr as (Hd' & tail & ->).
  unfold Path.below, Path.joinpath. rewrite !append_assoc.
  case_bool_decide as Hdd.
  - subst d'. apply orb_true_iff. right. apply prefix_append. exists tail.
    by rewrite !append_assoc.
  - apply orb_false_iff. split.
    + apply String.eqb_neq. intros Heq%append_inj_l%append_inj_l.
      rewrite <- Heq, !has_slash_append in Hd. simpl in Hd.
      by rewrite orb_true_r in Hd.
    + apply not_true_iff_false. intros (r & Heq)%prefix_append.
      rewrite !append_assoc in Heq. apply append_inj_l, append_inj_l in Heq.
      symmetry in Heq. by apply slash_split in Heq.
Qed.

Lemma below_needs_prefix dir d p :
  String.prefix (dir +:+ "/") p = false → Path.below (Path.joinpath dir d) p = false.
Proof.
  intros Hp. unfold Path.below, Path.joinpath. apply orb_false_iff. split.
  - apply String.eqb_neq. intros ->. apply not_true_iff_false in Hp. apply Hp.
    apply prefix_append. exists d. by rewrite append_assoc.
  - apply not_true_iff_false. intros (r & ->)%prefix_append.
    apply not_true_iff_false in Hp. apply Hp. apply prefix_append.
    exists (d +:+ "/" +:+ r). by rewrite !append_assoc.
Qed.

Lemma digits_then_no_slash n s t :
  digits_then n s = Some t → Path.has_slash s = Path.has_slash t.
Proof.
  revert s. induction n as [|n IH]; intros s; simpl; [by intros [= ->] |].
  destruct s as [|c s]; [done |]. destruct (is_digit c) eqn:Hc; [| done].
  intros Ht. simpl. rewrite (is_digit_not c "/") by done. by apply IH.
Qed.

Lemma session_pattern_no_slash name :
  session_pattern name = true → Path.has_slash name = false.
Proof.
  unfold session_pattern.
  destruct (digits_then 8 name) as [[|c rest]|] eqn:H8; try done.
  intros [Hc Hrest]%andb_true_iff. rewrite (digits_then_no_slash _ _ _ H8).
  apply Ascii.eqb_eq in Hc as ->. simpl.
  destruct (digits_then 6 rest) as [tail|] eqn:H6; [| done].
  rewrite (digits_then_no_slash _ _ _ H6).
  apply orb_true_iff in Hrest as [->%String.eqb_eq | ->%String.eqb_eq]; done.
Qed.

Lemma rmtree_other dir fs p : Path.below dir p = false → Path.rmtree dir fs !! p = fs !! p.
Proof.
  intros Hb. unfold Path.rmtree. destruct (fs !! p) as [sz|] eqn:Hp.
  - apply map_lookup_filter_Some. done.
  - apply map_lookup_filter_None. by left.
Qed.

Lemma fold_rmtree_kept dir D w p :
  (∀ d, d ∈ D → Path.below (Path.joinpath dir d) p = false) →
  files (foldl (λ w d, set_files (Path.rmtree (Path.joinpath dir d) (files w)) w) w D) !! p
  = files w !! p.
Proof.
  revert w. induction D as [|d D IH]; intros w HD; simpl; [done |].
  rewrite IH by (intros; apply HD; by right). simpl.
  apply rmtree_other, HD. left.
Qed.

Lemma fold_rmtree_absent dir D w p :
  files w !! p = None →
  files (foldl (λ w d, set_files (Path.rmtree (Path.joinpath dir d) (files w)) w) w D) !! p
  = None.
Proof.
  revert w. induction D as [|d D IH]; intros w Hp; simpl; [done |].
  apply IH. simpl. by apply rmtree_absent.
Qed.

Lemma fold_rmtree_gone dir D w p d :
  d ∈ D → Path.below (Path.joinpath dir d) p = true →
  files (foldl (λ w d, set_files (Path.rmtree (Path.joinpath dir d) (files w)) w) w D) !! p
  = None.
Proof.
  revert w. induction D as [|d0 D IH]; intros w Hin Hb; [by apply not_elem_of_nil in Hin |].
  simpl. apply elem_of_cons in Hin as [-> | Hin].
  - apply fold_rmtree_absent. simpl. by apply rmtree_below.
  - by apply IH.
Qed.


Lemma elem_of_subdirs dir fs d :
  d ∈ subdirs dir fs ↔ ∃ p, is_Some (fs !! p) ∧ subdir_of dir p = Some d.
Proof.
  unfold subdirs. rewrite elem_of_remove_dups, list_elem_of_omap. split.
  - intros (p & Hin & Hd). exists p. split; [| done].
    apply list_elem_of_fmap in Hin as ([p' sz] & -> & Hin).
    apply elem_of_map_to_list in Hin. by exists sz.
  - intros (p & [sz Hsz] & Hd). exists p. split; [| done].
    apply list_elem_of_fmap. exists (p, sz). split; [done |].
    by apply elem_of_map_to_list.
Qed.

Lemma elem_of_valid_sessions hk w d :
  d ∈ valid_sessions hk w
  ↔ session_pattern d = true ∧ d ∈ subdirs (SESSIONS_FOLDER hk) (files w).
Proof.
  unfold valid_sessions. rewrite elem_of_reverse, sorted_elem_of, list_elem_of_filter. done.
Qed.

Lemma to_delete_valid hk w d : d ∈ to_delete hk w → d ∈ valid_sessions hk w.
Proof. unfold to_delete. intros (i & Hi)%list_elem_of_lookup. rewrite lookup_drop in Hi.
  by eapply list_elem_of_lookup_2. Qed.

Lemma clean_old_sessions_files hk w :
  (∀ p, String.prefix (SESSIONS_FOLDER hk +:+ "/") p = false →
     files (clean_old_sessions hk w) !! p = files w !! p)
  ∧ (∀ p d, subdir_of (SESSIONS_FOLDER hk) p = Some d →
       files (clean_old_sessions hk w) !! p
       = if bool_decide (d ∈ to_delete hk w) then None else files w !! p)
  ∧ (∀ d, d ∈ to_delete hk w → session_pattern d = true).
Proof.
  assert (Hpat : ∀ d, d ∈ to_delete hk w → session_pattern d = true).
  { intros d Hd%to_delete_valid. by apply elem_of_valid_sessions in Hd as [? _]. }
  unfold clean_old_sessions. split_and!.
  - intros p Hp. apply fold_rmtree_kept. intros d _. by apply below_needs_prefix.
  - intros p d Hsub. case_bool_decide as Hd.
    + apply (fold_rmtree_gone _ _ _ _ d Hd).
      rewrite (below_subdir _ d p d) by (by apply session_pattern_no_slash, Hpat || done).
      by apply bool_decide_eq_true.
    + apply fold_rmtree_kept. intros d0 Hd0.
      rewrite (below_subdir _ d0 p d) by (by apply session_pattern_no_slash, Hpat || done).
      apply bool_decide_eq_false. by intros ->.
  - exact Hpat.
Qed.

Lemma valid_sessions_clean hk w :
  valid_sessions hk (clean_old_sessions hk w)
  = take (MAX_SESSIONS_TO_KEEP hk) (valid_sessions hk w).
Proof.
  pose proof str_le_trans as Htrans. pose proof str_le_total as Htotal.
  pose proof str_le_antisymm as Hanti.
  set (L := filter (λ name, session_pattern name = true)
                   (subdirs (SESSIONS_FOLDER hk) (files w))).
  set (k := (length (sorted L) - MAX_SESSIONS_TO_KEEP hk)%nat).
  assert (HV : valid_sessions hk w = reverse (sorted L)) by done.
  assert (HD : to_delete hk w = reverse (take k (sorted L))).
  { unfold to_delete. rewrite HV. apply drop_reverse. }
  rewrite HV, take_reverse. fold k. unfold valid_sessions at 1. f_equal.
  assert (HS : StronglySorted str_le (sorted L)) by by apply StronglySorted_merge_sort.
  assert (HndL : NoDup L) by apply NoDup_filter, NoDup_remove_dups.
  assert (HndS : NoDup (sorted L)).
  { unfold sorted. by rewrite merge_sort_Permutation. }
  rewrite <- (take_drop k (sorted L)) in HS, HndS.
  apply NoDup_app in HndS as (_ & Hdisj & Hnd2).
  apply (StronglySorted_unique str_le).
  - by apply StronglySorted_merge_sort.
  - by apply StronglySorted_app_1_r in HS.
  - unfold sorted at 1. rewrite merge_sort_Permutation.
    apply NoDup_Permutation; [apply NoDup_filter, NoDup_remove_dups | done |].
    intros d. rewrite list_elem_of_filter.
    assert (HdS : d ∈ sorted L ↔ d ∈ take k (sorted L) ∨ d ∈ drop k (sorted L)).
    { by rewrite <- elem_of_app, take_drop. }
    rewrite sorted_elem_of in HdS. unfold L in HdS at 1. rewrite list_elem_of_filter in HdS.
    assert (HdD : d ∈ to_delete hk w ↔ d ∈ take k (sorted L)).
    { by rewrite HD, elem_of_reverse. }
    destruct (clean_old_sessions_files hk w) as (_ & Hsub & Hpat).
    rewrite !elem_of_subdirs. split.
    + intros (Hp & p & Hsome & Hd). rewrite (Hsub p d Hd) in Hsome.
      case_bool_decide as Hdel; [by destruct Hsome |].
      destruct (proj1 HdS) as [Hin | Hin]; [| by destruct Hdel; apply HdD | done].
      split; [done |]. apply elem_of_subdirs. eauto.
    + intros Hin. assert (d ∉ to_delete hk w) as Hdel.
      { rewrite HdD. intros Hin'. by apply (Hdisj d). }
      destruct (proj2 HdS (or_intror Hin)) as (Hp & Hd).
      apply elem_of_subdirs in Hd as (p & Hsome & Hd).
      split; [done |]. exists p. split; [| done].
      rewrite (Hsub p d Hd). by rewrite bool_decide_eq_false_2.
Qed.


(** X8: after [clean_old_sessions] the session directories left are
    exactly the MAX_SESSIONS_TO_KEEP newest by name; every deleted one
    is older than every one kept; and running it again changes
    nothing. *)
Theorem clean_old_sessions_keeps_newest hk w :
  valid_sessions hk (clean_old_sessions hk w)
  = take (MAX_SESSIONS_TO_KEEP hk) (valid_sessions hk w)
  ∧ (∀ old new, old ∈ to_delete hk w → new ∈ valid_sessions hk (clean_old_sessions hk w) →
       str_le old new ∧ old ≠ new)
  ∧ (length (valid_sessions hk (clean_old_sessions hk w)) ≤ MAX_SESSIONS_TO_KEEP hk)%nat
  ∧ clean_old_sessions hk (clean_old_sessions hk w) = clean_old_sessions hk w.
Proof.
  pose proof (valid_sessions_clean hk w) as Hclean.
  split; [done |]. split; [| split].
  - rewrite Hclean. unfold to_delete, valid_sessions.
    set (S := sorted _). rewrite drop_reverse, take_reverse.
    set (k := (length S - MAX_SESSIONS_TO_KEEP hk)%nat).
    intros old new Hold Hnew. rewrite elem_of_reverse in Hold, Hnew.
    assert (HS : StronglySorted str_le S).
    { apply StronglySorted_merge_sort; [apply str_le_trans | apply str_le_total]. }
    assert (Hnd : NoDup S).
    { unfold S, sorted. rewrite merge_sort_Permutation.
      apply NoDup_filter, NoDup_remove_dups. }
    rewrite <- (take_drop k S) in HS, Hnd. split.
    + exact (StronglySorted_app_1_elem_of _ _ _ _ _ HS Hold Hnew).
    + apply NoDup_app in Hnd as (_ & Hdisj & _). intros ->. by apply (Hdisj new).
  - rewrite Hclean, length_take. lia.
  - unfold clean_old_sessions at 1. unfold to_delete. rewrite Hclean.
    rewrite drop_ge by (rewrite length_take; lia). done.
Qed.

End SessionsMore.


Lemma clean_old_sessions_keeps_newest_witness :
  str_le "20240102_120000" "20240103_120000"
  ∧ "20240102_120000" ≠ "20240103_120000".
Proof.
  apply (proj1 (proj2 (clean_old_sessions_keeps_newest default_settings
                         Housekeeping.seven_sessions))).
  - apply (bool_decide_unpack _). vm_compute. exact I.
  - apply (bool_decide_unpack _). vm_compute. exact I.
Defined.

(** ** Quality gate: what an accepted segment must have shown *)

Section GateMore.
Import QualityGate.
Context (cfg : Config).
Local Open Scope Z_scope.

(** The brightness values the loop adds come from frames it read. *)
Lemma sample_frames_brightness cap frame_indices prev_gray bv ms bv' ms' :
  sample_frames cap frame_indices prev_gray bv ms = Ok (bv', ms') →
  ∃ extra, bv' = (bv ++ extra)%list
    ∧ ∀ b, b ∈ extra →
        ∃ idx gray, idx ∈ frame_indices ∧ read cap idx = Frame gray ∧ b = brightness gray.
Proof.
  revert prev_gray bv ms.
  induction frame_indices as [|idx rest IH]; intros prev_gray bv ms; cbn [sample_frames].
  - intros [= <- <-]. exists []. rewrite app_nil_r. split; [done |].
    by intros b Hb%not_elem_of_nil.
  - destruct (read cap idx) as [gray | | msg] eqn:Hread; [| | done].
    + destruct (match prev_gray with
                | Some prev => _
                | None => Ok ms
                end) as [ms1|e]; simpl; [| done].
      intros (extra & -> & Hextra)%IH. exists (brightness gray :: extra).
      rewrite <- app_assoc. split; [done |].
      intros b [-> | Hb]%elem_of_cons.
      * exists idx, gray. split; [left | done].
      * destruct (Hextra b Hb) as (i & g & Hi & Hg & ->). exists i, g. split; [by right | done].
    + intros (extra & -> & Hextra)%IH. exists extra. split; [done |].
      intros b Hb. destruct (Hextra b Hb) as (i & g & Hi & Hg & ->).
      exists i, g. split; [by right | done].
Qed.

Lemma sample_frames_nothing_read cap frame_indices prev_gray bv ms :
  (∀ idx, idx ∈ frame_indices → read cap idx = NoFrame) →
  sample_frames cap frame_indices prev_gray bv ms = Ok (bv, ms).
Proof.
  induction frame_indices as [|idx rest IH]; intros Hall; cbn [sample_frames]; [done |].
  rewrite (Hall idx) by left. apply IH. intros i Hi. apply Hall. by right.
Qed.

Lemma linspace_int_total stop num : 0 <= num → ∃ l, linspace_int stop num = Ok l.
Proof.
  intros Hnum. unfold linspace_int. destruct (num <? 0) eqn:Hneg; [lia |].
  destruct (num =? 1); by eexists.
Qed.

Lemma judge_accepts_nonempty bv ms r :
  judge cfg bv ms = (true, r) →
  r = ReasonOK ∧ ∃ b a, b ∈ bv ∧ b = Some a.
Proof.
  unfold judge. destruct (in_band cfg (mean_nan bv)) eqn:Hband; simpl; [| done].
  intros Hr. split.
  { destruct (mean ms) as [m|]; [| by injection Hr].
    destruct (negb _); [done | by injection Hr]. }
  unfold in_band in Hband. destruct (mean_nan bv) as [a|] eqn:Hmean; [| done].
  unfold mean_nan in Hmean. destruct (mapM Datatypes.id bv) as [vs|] eqn:Hvs; [| done].
  simpl in Hmean. apply mapM_Some in Hvs.
  destruct Hvs as [|b v bv0 vs0 Hb _]; [done |].
  exists b, v. split; [left | done].
Qed.

(** X10: the gate never accepts a segment of which it saw nothing.  An
    accepted segment either met a disabled gate, or its capture opened,
    had at least VALIDATION_FRAME_SAMPLES frames, and gave a non-empty
    frame at one of the sampled positions; and a capture that opens but
    yields no frame at any sampled position is rejected for its
    brightness, the average being nan. *)
Theorem accepted_segment_was_seen cap :
  (∀ r, is_segment_high_quality cfg cap = (true, r) →
     (ENABLE_QUALITY_VALIDATION cfg = false ∧ r = ValidationDisabled)
     ∨ (ENABLE_QUALITY_VALIDATION cfg = true ∧ r = ReasonOK
        ∧ isOpened cap = true
        ∧ VALIDATION_FRAME_SAMPLES cfg <= CAP_PROP_FRAME_COUNT cap
        ∧ ∃ frame_indices idx gray,
            linspace_int (CAP_PROP_FRAME_COUNT cap - 1) (VALIDATION_FRAME_SAMPLES cfg)
              = Ok frame_indices
            ∧ idx ∈ frame_indices ∧ read cap idx = Frame gray ∧ gray ≠ []))
  ∧ (ENABLE_QUALITY_VALIDATION cfg = true →
     isOpened cap = true →
     0 <= VALIDATION_FRAME_SAMPLES cfg <= CAP_PROP_FRAME_COUNT cap →
     (∀ idx, read cap idx = NoFrame) →
     is_segment_high_quality cfg cap = (false, BrightnessOutOfRange None)).
Proof.
  split.
  - intros r. unfold is_segment_high_quality, evaluate.
    destruct (ENABLE_QUALITY_VALIDATION cfg); simpl; [| intros [= <-]; by left].
    destruct (isOpened cap); simpl; [| done].
    destruct (CAP_PROP_FRAME_COUNT cap <? VALIDATION_FRAME_SAMPLES cfg) eqn:Hcount; [done |].
    destruct (linspace_int _ _) as [frame_indices|e] eqn:Hidx; simpl; [| done].
    destruct (sample_frames cap frame_indices None [] []) as [[bv ms]|e] eqn:Hloop;
      simpl; [| done].
    intros (-> & b & a & Hb & ->)%judge_accepts_nonempty. right.
    apply sample_frames_brightness in Hloop as (extra & -> & Hextra).
    destruct (Hextra _ Hb) as (idx & gray & Hin & Hread & Hbright).
    split_and!; [done | done | done | lia |].
    exists frame_indices, idx, gray. split_and!; [done | done | done |].
    intros ->. done.
  - intros Hon Hopen [Hnum Hcount] Hnone.
    unfold is_segment_high_quality, evaluate. rewrite Hon, Hopen. simpl.
    assert (Hlt : (CAP_PROP_FRAME_COUNT cap <? VALIDATION_FRAME_SAMPLES cfg) = false) by lia.
    rewrite Hlt. destruct (linspace_int_total (CAP_PROP_FRAME_COUNT cap - 1) _ Hnum)
      as [frame_indices ->]. simpl.
    rewrite sample_frames_nothing_read by (intros; apply Hnone). done.
Qed.

Lemma Qsum_zeros (l : list Q) : Forall (λ q, q == 0)%Q l → (Qsum l == 0)%Q.
Proof.
  induction 1 as [|q l Hq _ IH]; simpl; [reflexivity |]. rewrite Hq, IH. reflexivity.
Qed.

Lemma motion_percent_same gray :
  gray ≠ [] → ∃ q, motion_percent gray gray = Ok q ∧ (q == 0)%Q.
Proof.
  intros Hne. unfold motion_percent. rewrite Nat.eqb_refl. simpl.
  assert (Hdiff : zip_with (λ a b, Z.abs (a - b)) gray gray = replicate (length gray) 0).
  { clear Hne. induction gray as [|x gray IH]; simpl; [done |].
    rewrite IH. f_equal. lia. }
  rewrite Hdiff, fmap_replicate. simpl.
  assert (Hzero : filter (λ t : Z, t ≠ 0) (replicate (length gray) 0) = []).
  { clear. induction (length gray) as [|n IH]; simpl; [done |].
    rewrite filter_cons. destruct (decide (0 ≠ 0)); [done | apply IH]. }
  rewrite Hzero. destruct gray as [|x gray]; [done |]. simpl.
  eexists. split; [done |]. unfold Qeq, Qdiv, Qmult. simpl. done.
Qed.

Lemma sample_frames_still cap gray frame_indices bv ms :
  gray ≠ [] →
  (∀ idx, idx ∈ frame_indices → read cap idx = Frame gray) →
  Forall (λ q, q == 0)%Q ms →
  ∃ bv' ms', sample_frames cap frame_indices (Some gray) bv ms = Ok (bv', ms')
    ∧ Forall (λ q, q == 0)%Q ms'
    ∧ length ms' = (length ms + length frame_indices)%nat.
Proof.
  intros Hne. revert bv ms.
  induction frame_indices as [|idx rest IH]; intros bv ms Hall Hzero; cbn [sample_frames].
  - exists bv, ms. split; [done |]. split; [done |]. simpl. lia.
  - rewrite (Hall idx) by left.
    destruct (motion_percent_same gray Hne) as (q & -> & Hq). simpl.
    destruct (IH (bv ++ [brightness gray])%list (ms ++ [q])%list) as (bv' & ms' & -> & Hz & Hlen).
    { intros i Hi. apply Hall. by right. }
    { apply Forall_app. split; [done |]. by constructor. }
    exists bv', ms'. split; [done |]. split; [done |].
    rewrite Hlen, length_app. simpl. lia.
Qed.

(** X11: a clip that shows the same picture at every sampled position is
    never accepted once a positive motion score is required and at least
    two positions are sampled, however good its brightness. *)
Theorem still_clip_is_rejected cap gray :
  ENABLE_QUALITY_VALIDATION cfg = true →
  isOpened cap = true →
  2 <= VALIDATION_FRAME_SAMPLES cfg <= CAP_PROP_FRAME_COUNT cap →
  (0 < MIN_MOTION_SCORE cfg)%Q →
  (∀ idx, read cap idx = Frame gray) →
  (is_segment_high_quality cfg cap).1 = false.
Proof.
  intros Hon Hopen [Hnum Hcount] Hmin Hsame.
  unfold is_segment_high_quality, evaluate. rewrite Hon, Hopen. simpl.
  assert (Hlt : (CAP_PROP_FRAME_COUNT cap <? VALIDATION_FRAME_SAMPLES cfg) = false) by lia.
  rewrite Hlt. unfold linspace_int.
  assert (Hneg : (VALIDATION_FRAME_SAMPLES cfg <? 0) = false) by lia.
  assert (Hone : (VALIDATION_FRAME_SAMPLES cfg =? 1) = false) by lia.
  rewrite Hneg, Hone. simpl.
  set (frame_indices := _ <$> seqZ 0 (VALIDATION_FRAME_SAMPLES cfg)).
  assert (Hlen : (2 <= length frame_indices)%nat).
  { unfold frame_indices. rewrite length_fmap, length_seqZ. lia. }
  destruct frame_indices as [|idx0 [|idx1 rest]]; simpl in Hlen; [lia | lia |].
  assert (Hhead : ∀ l, sample_frames cap (idx0 :: l) None [] []
                       = sample_frames cap l (Some gray) [brightness gray] []).
  { intros l. cbn [sample_frames]. by rewrite (Hsame idx0). }
  rewrite Hhead. clear Hhead.
  destruct (decide (gray = [])) as [-> | Hgray].
  { cbn [sample_frames]. rewrite (Hsame idx1). done. }
  destruct (sample_frames_still cap gray (idx1 :: rest) [brightness gray] [])
    as (bv' & ms' & -> & Hzero & Hms); [done | done | done |].
  cbn [mbind result_bind]. unfold judge.
  destruct (negb (in_band cfg (mean_nan bv'))); [done |].
  destruct ms' as [|m0 ms0] eqn:Hms'; [simpl in Hms; lia |].
  rewrite <- Hms' in Hzero. unfold mean. rewrite <- Hms'.
  destruct (Qle_bool (MIN_MOTION_SCORE cfg) _) eqn:Hle; [| done].
  exfalso. apply Qle_bool_iff in Hle.
  apply (Qlt_not_le _ _ Hmin). eapply Qle_trans; [exact Hle |].
  unfold Qdiv. rewrite (Qsum_zeros ms' Hzero). rewrite Qmult_0_l. apply Qle_refl.
Qed.

End GateMore.

Lemma accepted_segment_was_seen_witness :
  QualityGate.is_segment_high_quality default_config Housekeeping.blank_clip
  = (false, BrightnessOutOfRange None).
Proof.
  apply (proj2 (accepted_segment_was_seen default_config Housekeeping.blank_clip)).
  - reflexivity.
  - reflexivity.
  - simpl. lia.
  - reflexivity.
Defined.

Lemma still_clip_is_rejected_witness :
  (QualityGate.is_segment_high_quality default_config Housekeeping.still_clip).1 = false.
Proof.
  apply (still_clip_is_rejected default_config Housekeeping.still_clip [120; 130; 110; 120]%Z).
  - reflexivity.
  - reflexivity.
  - simpl. lia.
  - reflexivity.
  - reflexivity.
Defined.

(** ** Segmentation: what a batch may touch *)

Section SegmenterMore.
Import Segmenter Library.
Context (cfg : Config) (env : Env).

Lemma joinpath_prefix dir name : String.prefix (dir +:+ "/") (Path.joinpath dir name) = true.
Proof. apply prefix_append. exists name. unfold Path.joinpath. by rewrite append_assoc. Qed.

Lemma outside_joinpath dir name p :
  dir = RAW_VIDEOS_FOLDER cfg ∨ dir = SEGMENTS_FOLDER cfg →
  outside cfg p → Path.joinpath dir name ≠ p.
Proof.
  intros Hdir [H1 H2] <-. destruct Hdir as [-> | ->]; by rewrite joinpath_prefix in *.
Qed.

Lemma untouched_refl w : untouched cfg w w.
Proof. done. Qed.

Lemma untouched_trans w1 w2 w3 :
  untouched cfg w1 w2 → untouched cfg w2 w3 → untouched cfg w1 w3.
Proof.
  intros (Hl & Ha & Hr & Hf) (Hl' & Ha' & Hr' & Hf').
  split_and!; [congruence.. |]. intros p Hp. rewrite Hf', Hf; done.
Qed.

Lemma io_bind_eq {A B} (m : io A) (f : A → io B) w :
  (m ≫= f) w = match m w with
               | (Ok a, w') => f a w'
               | (Raise e, w') => (Raise e, w')
               end.
Proof. reflexivity. Qed.

Lemma run_ffmpeg_untouched start src len dir name w r w' :
  dir = RAW_VIDEOS_FOLDER cfg ∨ dir = SEGMENTS_FOLDER cfg →
  run_ffmpeg env start src len (Path.joinpath dir name) w = (r, w') →
  untouched cfg w w'.
Proof.
  intros Hdir. unfold run_ffmpeg. rewrite io_bind_eq. unfold lift.
  destruct (ffmpeg_copy env _ _ _ _) as [[sz|]|e]; intros [= <- <-]; [| done | done].
  split_and!; [done.. |]. intros p Hp. simpl. apply lookup_insert_ne.
  by apply outside_joinpath.
Qed.

Lemma unlink_untouched dir name w r w' :
  dir = RAW_VIDEOS_FOLDER cfg ∨ dir = SEGMENTS_FOLDER cfg →
  unlink (Path.joinpath dir name) w = (r, w') →
  untouched cfg w w'.
Proof.
  intros Hdir. unfold unlink, Path.unlink.
  destruct (Path.exists_ _ _); intros [= <- <-]; [| done].
  split_and!; [done.. |]. intros p Hp. simpl. apply lookup_delete_ne.
  by apply outside_joinpath.
Qed.

Lemma optional_unlink_untouched (b : bool) dir name w r w' :
  dir = RAW_VIDEOS_FOLDER cfg ∨ dir = SEGMENTS_FOLDER cfg →
  (if b then unlink (Path.joinpath dir name) else mret tt) w = (r, w') →
  untouched cfg w w'.
Proof.
  intros Hdir. destruct b; [by apply unlink_untouched |]. by intros [= <- <-].
Qed.

Lemma extract_segment_untouched input_video stem i w r w' :
  extract_segment cfg env input_video stem i w = (r, w') → untouched cfg w w'.
Proof.
  unfold extract_segment. rewrite io_bind_eq.
  destruct (run_ffmpeg _ _ _ _ _ w) as [[[]|e] w1] eqn:Hff.
  - apply run_ffmpeg_untouched in Hff; [| by right].
    destruct (QualityGate.is_segment_high_quality _ _) as [[|] why]; simpl.
    + by intros [= <- <-].
    + intros Hun%unlink_untouched; [| by right]. by eapply untouched_trans.
  - apply run_ffmpeg_untouched in Hff; [| by right]. by intros [= <- <-].
Qed.

Lemma for_each_untouched {A} (body : A → io unit) l :
  (∀ x w r w', body x w = (r, w') → untouched cfg w w') →
  ∀ w r w', for_each l body w = (r, w') → untouched cfg w w'.
Proof.
  intros Hbody. induction l as [|x l IH]; intros w r w'; cbn [for_each].
  - by intros [= <- <-].
  - rewrite io_bind_eq. destruct (body x w) as [[[]|e] w1] eqn:Hx.
    + intros Hrest%IH. apply Hbody in Hx. by eapply untouched_trans.
    + intros [= <- <-]. by apply Hbody in Hx.
Qed.

Lemma trim_video_untouched video_name w r w' :
  trim_video cfg env (Path.joinpath (RAW_VIDEOS_FOLDER cfg) video_name)
    (Path.stem video_name) w = (r, w') →
  untouched cfg w w'
  ∧ (r = Ok None → w' = w)
  ∧ (∀ input_video, r = Ok (Some input_video) →
       ∃ name, input_video = Path.joinpath (RAW_VIDEOS_FOLDER cfg) name).
Proof.
  unfold trim_video. destruct (ENABLE_VIDEO_TRIMMING cfg).
  - rewrite io_bind_eq. unfold lift.
    destruct (get_video_duration env _) as [duration|e]; [| by intros [= <- <-]].
    destruct (negb (Qle_bool _ _)); [by intros [= <- <-] |].
    rewrite io_bind_eq.
    destruct (run_ffmpeg _ _ _ _ _ w) as [[[]|e] w1] eqn:Hff.
    + apply run_ffmpeg_untouched in Hff; [| by left].
      rewrite io_bind_eq. unfold get_world. intros [= <- <-].
      split; [done |]. split; [done |]. intros input_video [= <-].
      destruct (Path.exists_ _ _); by eexists.
    + apply run_ffmpeg_untouched in Hff; [| by left]. by intros [= <- <-].
  - intros [= <- <-]. split; [done |]. split; [done |]. intros ? [= <-]. by eexists.
Qed.

(** What [process_video] can do to one raw video. *)
Lemma process_video_cases video_name w r w' :
  process_video cfg env video_name w = (r, w') →
  (r = Ok tt ∧ w' = w)
  ∨ (r = Ok tt
     ∧ processed_videos_log w'
       = Some (default "" (processed_videos_log w) +:+ Path.stem video_name +:+ LF)
     ∧ files w' !! Path.joinpath (RAW_VIDEOS_FOLDER cfg) video_name = None
     ∧ _assigned w' = _assigned w
     ∧ youtube_requests w' = youtube_requests w
     ∧ ∀ path, outside cfg path → files w' !! path = files w !! path)
  ∨ (∃ e, r = Raise e ∧ untouched cfg w w').
Proof.
  unfold process_video. rewrite io_bind_eq.
  destruct (trim_video _ _ _ _ w) as [[trimmed|e] w1] eqn:Htrim.
  2: { intros [= <- <-]. right. right. exists e. split; [done |].
       by apply trim_video_untouched in Htrim as (? & _). }
  apply trim_video_untouched in Htrim as (H1 & Hskip & Hinput).
  destruct trimmed as [input_video|]; [| intros [= <- <-]; left; by rewrite Hskip].
  destruct (Hinput input_video eq_refl) as [name ->]. clear Hinput Hskip.
  rewrite io_bind_eq. unfold lift at 1.
  destruct (get_video_duration env _) as [video_duration|e].
  2: { intros [= <- <-]. right. right. by exists e. }
  rewrite io_bind_eq. unfold lift at 1.
  destruct (SEGMENT_DURATION_SECONDS cfg =? 0)%Z.
  { intros [= <- <-]. right. right. by eexists. }
  rewrite io_bind_eq.
  destruct (for_each _ _ w1) as [[[]|e] w2] eqn:Hloop.
  2: { intros [= <- <-]. right. right. exists e. split; [done |].
       apply (for_each_untouched _ _ (extract_segment_untouched _ _)) in Hloop.
       by eapply untouched_trans. }
  apply (for_each_untouched _ _ (extract_segment_untouched _ _)) in Hloop.
  pose proof (untouched_trans _ _ _ H1 Hloop) as H2.
  rewrite io_bind_eq. unfold get_world at 1. rewrite io_bind_eq.
  match goal with |- match ?c w2 with _ => _ end = _ → _ =>
    destruct (c w2) as [[[]|e] w3] eqn:Hclean end.
  2: { intros [= <- <-]. right. right. exists e. split; [done |].
       apply optional_unlink_untouched in Hclean; [| by left]. by eapply untouched_trans. }
  apply optional_unlink_untouched in Hclean; [| by left].
  pose proof (untouched_trans _ _ _ H2 Hclean) as H3.
  rewrite io_bind_eq.
  destruct (unlink _ w3) as [[[]|e] w4] eqn:Hraw.
  2: { intros [= <- <-]. right. right. exists e. split; [done |].
       apply unlink_untouched in Hraw; [| by left]. by eapply untouched_trans. }
  intros [= <- <-]. right. left.
  pose proof Hraw as Hraw'. apply unlink_untouched in Hraw'; [| by left].
  destruct (untouched_trans _ _ _ H3 Hraw') as (Hlog & Hassigned & Hreq & Hfiles).
  simpl. rewrite Hlog.
  unfold unlink, Path.unlink in Hraw.
  destruct (Path.exists_ _ (files w3)) eqn:Hex; [| done]. injection Hraw as <-.
  split_and!; [done | done | apply lookup_delete_eq | done | done | done].
Qed.

(** X12: one raw video ends in one of three ways.  It is skipped and
    nothing changes; or it is processed to the end, and then its raw
    file is gone and its stem, with a newline, is appended to the log;
    or an exception ends it, and then the log is as it was.  The id is
    thus logged only after the raw file was deleted.  In no case are
    the assignments, the upload requests or any file outside the raw
    and the segments folder touched. *)
Theorem process_video_marks_after_cleanup video_name w :
  let r := (process_video cfg env video_name w).1 in
  let w' := (process_video cfg env video_name w).2 in
  (r = Ok tt ∧ w' = w)
  ∨ (r = Ok tt
     ∧ processed_videos_log w'
       = Some (default "" (processed_videos_log w) +:+ Path.stem video_name +:+ LF)
     ∧ files w' !! Path.joinpath (RAW_VIDEOS_FOLDER cfg) video_name = None
     ∧ _assigned w' = _assigned w
     ∧ youtube_requests w' = youtube_requests w
     ∧ ∀ path, outside cfg path → files w' !! path = files w !! path)
  ∨ (∃ e, r = Raise e ∧ untouched cfg w w').
Proof.
  simpl. apply process_video_cases. by destruct (process_video cfg env video_name w).
Qed.

(** X13: once ffmpeg has run for a segment, a segment the gate rejects
    is never left on disk: the file at the segment's path is deleted,
    whether ffmpeg wrote it just now or it was there before; if there
    is no file to delete, the deletion raises FileNotFoundError, which
    ends the processing of the whole raw video.  A segment the gate
    accepts is left exactly as ffmpeg wrote it. *)
Theorem rejected_segment_is_not_kept input_video stem i w written :
  let segment_path :=
    Path.joinpath (SEGMENTS_FOLDER cfg) (stem +:+ "_seg" +:+ pretty (i + 1)%Z +:+ ".mp4") in
  let verdict :=
    (QualityGate.is_segment_high_quality cfg (cv2_VideoCapture env segment_path)).1 in
  ffmpeg_copy env (inject_Z (i * SEGMENT_DURATION_SECONDS cfg)) input_video
    (inject_Z (SEGMENT_DURATION_SECONDS cfg)) segment_path = Ok written →
  let r := (extract_segment cfg env input_video stem i w).1 in
  let w' := (extract_segment cfg env input_video stem i w).2 in
  (verdict = false →
     files w' !! segment_path = None
     ∧ (∀ path, path ≠ segment_path → files w' !! path = files w !! path)
     ∧ (r = Ok tt ∨ r = Raise (FileNotFoundError segment_path))
     ∧ (r = Ok tt ↔ is_Some written ∨ is_Some (files w !! segment_path)))
  ∧ (verdict = true →
     r = Ok tt
     ∧ files w' = match written with
                  | Some sz => <[segment_path := sz]> (files w)
                  | None => files w
                  end).
Proof.
  intros segment_path verdict Hff. unfold extract_segment. fold segment_path.
  rewrite io_bind_eq. unfold run_ffmpeg. rewrite io_bind_eq. unfold lift. rewrite Hff.
  unfold verdict.
  destruct (QualityGate.is_segment_high_quality _ _) as [is_valid why]. simpl.
  split; intros ->; simpl.
  - unfold unlink, Path.unlink, Path.exists_.
    destruct written as [sz|]; simpl.
    + rewrite bool_decide_eq_true_2 by (rewrite lookup_insert_eq; by eexists). simpl.
      split_and!.
      * apply lookup_delete_eq.
      * intros path Hne. by rewrite lookup_delete_ne, lookup_insert_ne.
      * by left.
      * split; [intros _; left; by eexists | done].
    + case_bool_decide as Hex; simpl.
      * split_and!; [apply lookup_delete_eq | | by left | split; [by right | done]].
        intros path Hne. by rewrite lookup_delete_ne.
      * split_and!; [by apply eq_None_not_Some | done | by right |].
        split; [done |]. intros [[? [=]] | ?]; done.
  - by destruct written.
Qed.

Lemma log_extended_refl w : log_extended cfg w w.
Proof. split_and!; try done. exists "". by rewrite append_nil_r. Qed.

Lemma log_extended_trans w1 w2 w3 :
  log_extended cfg w1 w2 → log_extended cfg w2 w3 → log_extended cfg w1 w3.
Proof.
  intros ((s1 & Hs1) & Hsome1 & Ha & Hr & Hf) ((s2 & Hs2) & Hsome2 & Ha' & Hr' & Hf').
  split_and!; [| auto | congruence | congruence |].
  - exists (s1 +:+ s2). by rewrite Hs2, Hs1, append_assoc.
  - intros p Hp. rewrite Hf', Hf; done.
Qed.

Lemma untouched_log_extended w w' : untouched cfg w w' → log_extended cfg w w'.
Proof.
  intros (Hl & Ha & Hr & Hf). split_and!; try done.
  - exists "". by rewrite Hl, append_nil_r.
  - by rewrite Hl.
Qed.

(** X14: a whole segmentation batch never removes or rewrites what the
    processed-video log holds (the old content is a prefix of the new),
    never touches the segment assignments or the upload requests, and
    changes no file outside the raw and the segments folder. *)
Theorem process_new_videos_extends_log w :
  log_extended cfg w (process_new_videos_into_segments cfg env w).
Proof.
  unfold process_new_videos_into_segments.
  generalize (videos_to_process cfg w). intros videos. revert w.
  induction videos as [|video_name videos IH]; intros w; simpl; [apply log_extended_refl |].
  eapply log_extended_trans; [| apply IH].
  unfold try_except.
  destruct (process_video cfg env video_name w) as [r w'] eqn:Hp. simpl.
  apply process_video_cases in Hp
    as [[_ ->] | [(_ & Hlog & _ & Ha & Hr & Hf) | (e & _ & Hun)]].
  - apply log_extended_refl.
  - split_and!; [| by rewrite Hlog | done | done | done].
    exists (Path.stem video_name +:+ LF). by rewrite Hlog.
  - by apply untouched_log_extended.
Qed.

End SegmenterMore.

Lemma process_video_marks_after_cleanup_witness :
  processed_videos_log
    (Segmenter.process_video default_config Scenario.tools "intro.mp4" Scenario.raw_library).2
  = Some ("intro" +:+ LF)
  ∧ files
      (Segmenter.process_video default_config Scenario.tools "intro.mp4" Scenario.raw_library).2
    !! "assets/raw_videos/intro.mp4" = None.
Proof.
  destruct (process_video_marks_after_cleanup default_config Scenario.tools "intro.mp4"
              Scenario.raw_library) as [[_ Hw] | [(_ & Hlog & Hgone & _) | (e & Hr & _)]].
  - exfalso. apply (f_equal processed_videos_log) in Hw. vm_compute in Hw. discriminate.
  - split; [exact Hlog | exact Hgone].
  - exfalso. vm_compute in Hr. discriminate.
Defined.

Lemma rejected_segment_is_not_kept_witness :
  files (Segmenter.extract_segment default_config Scenario.tools
           "assets/raw_videos/intro_trimmed.mp4" "intro" 0 Scenario.raw_library).2
    !! "assets/segments/intro_seg1.mp4" = None.
Proof.
  exact (proj1 (proj1 (rejected_segment_is_not_kept default_config Scenario.tools
                         "assets/raw_videos/intro_trimmed.mp4" "intro" 0 Scenario.raw_library
                         (Some 500000%N) eq_refl) eq_refl)).
Defined.

(** ** The processed-video log read back *)

Section LogMore.
Import Spec.

(** After a line break the next line is read from scratch. *)
Lemma splitlines_aux_break cur c rest :
  is_linebreak c = true →
  splitlines_aux cur (String c rest)
  = String.rev cur :: splitlines
      (match rest with
       | String d rest' => if Ascii.eqb c "013" && Ascii.eqb d "010" then rest' else rest
       | EmptyString => rest
       end).
Proof.
  intros Hc. cbn [splitlines_aux]. rewrite Hc.
  destruct (Ascii.eqb_spec c "013") as [-> | Hne].
  - destruct rest as [|d rest']; [done |].
    destruct (Ascii.eqb_spec d "010") as [-> | Hd]; [done |].
    simpl. destruct d as [[] [] [] [] [] [] [] []]; try done.
  - destruct c as [[] [] [] [] [] [] [] []]; try done; by destruct rest.
Qed.

(** A text that ends in a newline is read independently of what is
    written after it. *)
Lemma splitlines_aux_terminated c0 cur rest :
  splitlines_aux cur (c0 +:+ LF +:+ rest)
  = (splitlines_aux cur (c0 +:+ LF) ++ splitlines rest)%list.
Proof.
  assert (Hnil : ∀ cur, splitlines_aux cur (String "010" rest)
                        = (splitlines_aux cur (String "010" "") ++ splitlines rest)%list).
  { intros cur'. rewrite !splitlines_aux_break by done. simpl. by destruct rest. }
  revert cur. induction c0 as [|c c0 IH]; intros cur; [apply Hnil |].
  rewrite !append_cons. destruct (is_linebreak c) eqn:Hc.
  - rewrite !splitlines_aux_break by done.
    destruct c0 as [|d c0'].
    + change ("" +:+ LF +:+ rest) with (String "010" rest).
      change ("" +:+ LF) with (String "010" "").
      cbn match. change (Ascii.eqb "010" "010") with true.
      destruct (Ascii.eqb c "013"); cbn [andb].
      * done.
      * reflexivity.
    + rewrite !append_cons. cbn match.
      destruct (Ascii.eqb c "013" && Ascii.eqb d "010") eqn:Hcr.
      * apply andb_true_iff in Hcr as [_ ->%Ascii.eqb_eq]. simpl. f_equal.
        specialize (IH ""). rewrite !append_cons in IH.
        rewrite !splitlines_aux_break in IH by done.
        destruct c0' as [|x c0'']; [apply Hnil |].
        rewrite !append_cons in IH. cbn match in IH.
        change (Ascii.eqb "010" "013") with false in IH. cbn [andb] in IH.
        simpl in IH. by injection IH.
      * simpl. f_equal. specialize (IH ""). by rewrite !append_cons in IH.
  - cbn [splitlines_aux]. rewrite Hc. apply IH.
Qed.

Lemma splitlines_single x :
  no_linebreak x = true → x ≠ "" → splitlines x = [x].
Proof.
  intros Hx Hne. unfold splitlines.
  rewrite <- (append_nil_r x) at 1. rewrite splitlines_aux_piece by done.
  cbn [splitlines_aux]. fold (String.rev x).
  destruct (String.rev x) eqn:Hrev.
  - apply (f_equal String.rev) in Hrev. rewrite rev_involutive in Hrev. done.
  - by rewrite <- Hrev, rev_involutive.
Qed.

Lemma splitlines_join l :
  Forall (λ x, no_linebreak x = true ∧ x ≠ "") l → splitlines (join LF l) = l.
Proof.
  induction 1 as [|x l [Hx Hne] Hl IH]; [done |].
  destruct l as [|y l]; [by apply splitlines_single |].
  change (join LF (x :: y :: l)) with (x +:+ LF +:+ join LF (y :: l)).
  rewrite splitlines_line by done. by rewrite IH.
Qed.

(** X15: the segmenter's own way of writing the log is read back in
    full.  On a log that is absent, empty or ends in a newline,
    appending a stem and a newline adds exactly that stem to the ids
    read from the log, keeps every id that was there, and the log again
    ends in a newline. *)
Theorem mark_as_processed_is_read_back stem w :
  no_linebreak stem = true →
  (∀ content, processed_videos_log w = Some content →
     content = "" ∨ ∃ c0, content = c0 +:+ LF) →
  load_processed_ids (Segmenter.mark_as_processed stem w).2
  = load_processed_ids w ∪ {[stem]}
  ∧ ∃ c0, processed_videos_log (Segmenter.mark_as_processed stem w).2 = Some (c0 +:+ LF).
Proof.
  intros Hstem Hlog. unfold Segmenter.mark_as_processed, modify, load_processed_ids. simpl.
  assert (Hone : splitlines (stem +:+ LF) = [stem]).
  { rewrite <- (append_nil_r LF). by rewrite splitlines_line. }
  destruct (processed_videos_log w) as [content|]; simpl.
  - destruct (Hlog content eq_refl) as [-> | [c0 ->]]; simpl.
    + change ("" +:+ stem +:+ LF) with (stem +:+ LF).
      rewrite Hone. split; [set_solver | by exists stem].
    + split; [| exists (c0 +:+ LF +:+ stem); by rewrite !append_assoc].
      rewrite append_assoc. unfold splitlines at 1.
      rewrite splitlines_aux_terminated, Hone. fold (splitlines (c0 +:+ LF)).
      by rewrite list_to_set_snoc_L.
  - change ("" +:+ stem +:+ LF) with (stem +:+ LF).
    rewrite Hone. split; [set_solver | by exists stem].
Qed.

(** X16: the downloader's rewrite of the log is read back as the set it
    was written from, provided no id is empty or holds a line break and
    the set is iterated without losing or inventing elements; an empty
    set leaves the log as it is. *)
Theorem save_processed_ids_round_trip env ids w :
  set_iteration env ids ≡ₚ elements ids →
  (∀ x, x ∈ ids → no_linebreak x = true ∧ x ≠ "") →
  (ids ≠ ∅ → load_processed_ids (Downloader.save_processed_ids env ids w) = ids)
  ∧ (ids = ∅ → Downloader.save_processed_ids env ids w = w).
Proof.
  intros Hperm Hids. unfold Downloader.save_processed_ids.
  destruct (decide (ids = ∅)) as [Hempty | Hne]; [done |].
  split; [intros _ | done]. unfold load_processed_ids. simpl.
  rewrite splitlines_join.
  - rewrite (list_to_set_perm_L _ _ Hperm). apply list_to_set_elements_L.
  - apply Forall_forall. intros x Hx. apply Hids.
    rewrite Hperm in Hx. by apply elem_of_elements in Hx.
Qed.

End LogMore.

Lemma mark_as_processed_is_read_back_witness :
  load_processed_ids
    (Segmenter.mark_as_processed "intro" (set_log (Some ("abc" +:+ LF)) Scenario.raw_library)).2
  = load_processed_ids (set_log (Some ("abc" +:+ LF)) Scenario.raw_library) ∪ {["intro"]}.
Proof.
  apply (mark_as_processed_is_read_back "intro"
           (set_log (Some ("abc" +:+ LF)) Scenario.raw_library)).
  - reflexivity.
  - intros content [= <-]. right. by exists "abc".
Defined.

Lemma save_processed_ids_round_trip_witness :
  load_processed_ids
    (Downloader.save_processed_ids Scenario.tools {["abc"; "intro"]} Scenario.raw_library)
  = {["abc"; "intro"]}.
Proof.
  apply (proj1 (save_processed_ids_round_trip Scenario.tools {["abc"; "intro"]}
                  Scenario.raw_library (reflexivity _)
                  ltac:(intros x Hx;
                        assert (x = "abc" ∨ x = "intro") as [-> | ->] by set_solver;
                        (split; [reflexivity | discriminate])))).
  intros Heq. apply (f_equal (λ s : gset string, bool_decide ("abc" ∈ s))) in Heq.
  vm_compute in Heq. discriminate.
Defined.

(** ** Raw-video download: the hunting loop *)

Section DownloaderMore.
Import Downloader Library.
Context (cfg : Config) (env : Env).

Lemma foldl_invariant {A B} (I : A → Prop) (f : A → B → A) l :
  (∀ a b, b ∈ l → I a → I (f a b)) → ∀ a, I a → I (foldl f a l).
Proof.
  induction l as [|b l IH]; intros Hf a Ha; simpl; [done |].
  apply IH; [| apply Hf; [left | done]]. intros a' b' Hb'. apply Hf. by right.
Qed.

Lemma size_list_to_set_le (l : list string) :
  (size (list_to_set l : gset string) ≤ length l)%nat.
Proof.
  induction l as [|x l IH]; [by rewrite list_to_set_nil, size_empty |].
  rewrite list_to_set_cons, size_union_alt, size_singleton. simpl.
  pose proof (subseteq_size (list_to_set l ∖ {[x]}) (list_to_set l : gset string)) as Hle.
  specialize (Hle ltac:(set_solver)). lia.
Qed.

Lemma scan_channel_unseen min_duration seen channel_id video :
  video ∈ scan_channel env min_duration seen channel_id → id video ∉ seen.
Proof.
  unfold scan_channel. destruct (channel_entries env channel_id) as [entries|e].
  - by intros [[_ ?] _]%list_elem_of_filter.
  - by intros ?%not_elem_of_nil.
Qed.

(** What holds of the loop state throughout a hunt started from [w]
    for [num_to_download] videos. *)
Lemma hunt_invariant num_to_download channels w tiers :
  (∀ candidates, shuffle env candidates ≡ₚ candidates) →
  let start := {| downloaded := []; processed_ids := load_processed_ids w |} in
  let st := foldl (hunt_tier cfg env num_to_download channels) (start, w) tiers in
  (length (downloaded st.1) ≤ num_to_download)%nat
  ∧ (∃ ids,
       downloaded st.1
       = (λ video_id, Path.joinpath (RAW_VIDEOS_FOLDER cfg) (video_id +:+ ".mp4")) <$> ids
       ∧ processed_ids st.1 = load_processed_ids w ∪ list_to_set ids
       ∧ Forall (λ video_id,
                   (video_id ∉ load_processed_ids w)
                   ∧ is_Some (files st.2 !! Path.joinpath (RAW_VIDEOS_FOLDER cfg)
                                              (video_id +:+ ".mp4")))
                ids)
  ∧ processed_videos_log st.2 = processed_videos_log w
  ∧ _assigned st.2 = _assigned w
  ∧ youtube_requests st.2 = youtube_requests w
  ∧ (∀ path, is_Some (files w !! path) → is_Some (files st.2 !! path))
  ∧ (∀ path, String.prefix (RAW_VIDEOS_FOLDER cfg +:+ "/") path = false →
       files st.2 !! path = files w !! path).
Proof.
  intros Hshuffle start.
  set (I := λ st : Hunt * World,
    (length (downloaded st.1) ≤ num_to_download)%nat
    ∧ (∃ ids,
         downloaded st.1
         = (λ video_id, Path.joinpath (RAW_VIDEOS_FOLDER cfg) (video_id +:+ ".mp4")) <$> ids
         ∧ processed_ids st.1 = load_processed_ids w ∪ list_to_set ids
         ∧ Forall (λ video_id,
                     (video_id ∉ load_processed_ids w)
                     ∧ is_Some (files st.2 !! Path.joinpath (RAW_VIDEOS_FOLDER cfg)
                                                (video_id +:+ ".mp4")))
                  ids)
    ∧ processed_videos_log st.2 = processed_videos_log w
    ∧ _assigned st.2 = _assigned w
    ∧ youtube_requests st.2 = youtube_requests w
    ∧ (∀ path, is_Some (files w !! path) → is_Some (files st.2 !! path))
    ∧ (∀ path, String.prefix (RAW_VIDEOS_FOLDER cfg +:+ "/") path = false →
         files st.2 !! path = files w !! path)).
  assert (Hstep : ∀ st video, id video ∉ load_processed_ids w →
                    I st → I (try_download cfg env num_to_download st video)).
  { intros [h w1] video Hnew (Hlen & (ids & Hdl & Hids & Hall) & Hlog & Ha & Hr & Hkeep & Hf).
    simpl in Hlen, Hdl, Hids, Hall, Hlog, Ha, Hr, Hf, Hkeep. unfold try_download.
    destruct (num_to_download <=? length (downloaded h))%nat eqn:Hfull.
    { split_and!; [done | by exists ids | done..]. }
    apply Nat.leb_gt in Hfull.
    destruct (ydl_download env (id video)) as [written|e].
    2: { split_and!; [done | by exists ids | done..]. }
    set (output_path := Path.joinpath (RAW_VIDEOS_FOLDER cfg) (id video +:+ ".mp4")).
    set (w2 := match written with
               | Some sz => set_files (<[output_path := sz]> (files w1)) w1
               | None => w1
               end).
    assert (Hrest2 : processed_videos_log w2 = processed_videos_log w1
                     ∧ _assigned w2 = _assigned w1
                     ∧ youtube_requests w2 = youtube_requests w1).
    { unfold w2. by destruct written. }
    destruct Hrest2 as (Hlog2 & Ha2 & Hr2).
    assert (Hf2 : ∀ path, String.prefix (RAW_VIDEOS_FOLDER cfg +:+ "/") path = false →
                          files w2 !! path = files w1 !! path).
    { unfold w2. destruct written as [sz|]; [| done].
      intros p Hp. simpl. apply lookup_insert_ne.
      intros <-. unfold output_path in Hp. by rewrite joinpath_prefix in Hp. }
    assert (Hkeep2 : ∀ path, is_Some (files w1 !! path) → is_Some (files w2 !! path)).
    { unfold w2. destruct written as [sz|]; [| done]. intros path Hp. simpl.
      destruct (decide (output_path = path)) as [<- | Hne].
      - rewrite lookup_insert_eq. by eexists.
      - by rewrite lookup_insert_ne. }
    assert (Hall2 : Forall (λ video_id,
                     (video_id ∉ load_processed_ids w)
                     ∧ is_Some (files w2 !! Path.joinpath (RAW_VIDEOS_FOLDER cfg)
                                             (video_id +:+ ".mp4"))) ids).
    { eapply Forall_impl; [exact Hall |]. intros v [Hv Hs]. auto. }
    assert (Hbase : I (h, w2)).
    { split_and!; simpl; [done | by exists ids | congruence | congruence | congruence
                          | by auto |].
      intros path Hp. by rewrite Hf2, Hf. }
    destruct (files w2 !! output_path) as [sz|] eqn:Hout; [| done].
    destruct (1024 <? sz)%N; [| done].
    destruct Hbase as (_ & _ & Hlog' & Ha' & Hr' & Hkeep' & Hf').
    split_and!; simpl; [| | done..].
    - rewrite length_app. simpl. lia.
    - exists (ids ++ [id video])%list. split_and!.
      + by rewrite fmap_app, Hdl.
      + rewrite Hids, list_to_set_app_L. simpl. set_solver.
      + apply Forall_app. split; [done |]. constructor; [| done].
        split; [done |]. fold output_path. by rewrite Hout. }
  assert (Htier : ∀ st tier, I st → I (hunt_tier cfg env num_to_download channels st tier)).
  { intros st tier Hst. unfold hunt_tier.
    destruct (num_to_download <=? length (downloaded st.1))%nat; [done |].
    apply (foldl_invariant I); [| done].
    intros st' video Hin. apply Hstep. rewrite Hshuffle in Hin.
    apply list_elem_of_bind in Hin as (channel_id & Hin & _).
    apply scan_channel_unseen in Hin.
    destruct Hst as (_ & (ids & _ & Hids & _) & _). rewrite Hids in Hin. set_solver. }
  apply (foldl_invariant I); [intros; by apply Htier |].
  unfold I, start. simpl. split_and!; [lia | | done..].
  exists []. split_and!; [done | set_solver | done].
Qed.

(** X17: the hunting loop of a download run, whose final state the run
    saves.  It never records more downloads than it was asked for; what
    it records are videos whose ids were not in the log at the start,
    each stored in the raw folder under its id; the ids held at the end
    are those read from the log plus the ids downloaded, so at most
    [num_to_download] ids are new; no file that existed is removed, no
    file outside the raw folder is touched, and the log, the
    assignments and the upload requests are as they were until the ids
    are saved. *)
Theorem download_stays_within_request num_to_download w :
  (∀ candidates, shuffle env candidates ≡ₚ candidates) →
  let start := {| downloaded := []; processed_ids := load_processed_ids w |} in
  let st := foldl (hunt_tier cfg env num_to_download
                     (sample_channels env (CURATED_CHANNEL_IDS cfg)))
                  (start, w) (HUNTING_TIERS cfg) in
  download_new_source_videos cfg env num_to_download w
  = save_processed_ids env (processed_ids st.1) st.2
  ∧ (length (downloaded st.1) ≤ num_to_download)%nat
  ∧ (∃ ids,
       downloaded st.1
       = (λ video_id, Path.joinpath (RAW_VIDEOS_FOLDER cfg) (video_id +:+ ".mp4")) <$> ids
       ∧ processed_ids st.1 = load_processed_ids w ∪ list_to_set ids
       ∧ Forall (λ video_id,
                   (video_id ∉ load_processed_ids w)
                   ∧ is_Some (files st.2 !! Path.joinpath (RAW_VIDEOS_FOLDER cfg)
                                              (video_id +:+ ".mp4")))
                ids)
  ∧ (size (processed_ids st.1 ∖ load_processed_ids w) ≤ num_to_download)%nat
  ∧ processed_videos_log st.2 = processed_videos_log w
  ∧ _assigned st.2 = _assigned w
  ∧ youtube_requests st.2 = youtube_requests w
  ∧ (∀ path, is_Some (files w !! path) → is_Some (files st.2 !! path))
  ∧ (∀ path, String.prefix (RAW_VIDEOS_FOLDER cfg +:+ "/") path = false →
       files st.2 !! path = files w !! path).
Proof.
  intros Hshuffle start st.
  destruct (hunt_invariant num_to_download (sample_channels env (CURATED_CHANNEL_IDS cfg))
              w (HUNTING_TIERS cfg) Hshuffle)
    as (Hlen & (ids & Hdl & Hids & Hall) & Hrest).
  fold start in Hlen, Hdl, Hids, Hall, Hrest. fold st in Hlen, Hdl, Hids, Hall, Hrest.
  split_and!; [| done | by exists ids | | apply Hrest..].
  - unfold download_new_source_videos. fold start. fold st. by destruct st.
  - rewrite Hids.
    assert (Hsub : (load_processed_ids w ∪ list_to_set ids) ∖ load_processed_ids w
                   ⊆ (list_to_set ids : gset string)) by set_solver.
    apply subseteq_size in Hsub. pose proof (size_list_to_set_le ids) as Hle.
    assert (length ids = length (downloaded st.1)) as Hn by (by rewrite Hdl, length_fmap).
    lia.
Qed.

End DownloaderMore.

Lemma download_stays_within_request_witness :
  Downloader.downloaded
    (foldl (Downloader.hunt_tier default_config Scenario.tools 1
              (sample_channels Scenario.tools (CURATED_CHANNEL_IDS default_config)))
           ({| Downloader.downloaded := [];
               Downloader.processed_ids := load_processed_ids Scenario.raw_library |},
            Scenario.raw_library)
           (HUNTING_TIERS default_config)).1
  = ["assets/raw_videos/abc.mp4"]
  ∧ (size (Downloader.processed_ids
             (foldl (Downloader.hunt_tier default_config Scenario.tools 1
                       (sample_channels Scenario.tools (CURATED_CHANNEL_IDS default_config)))
                    ({| Downloader.downloaded := [];
                        Downloader.processed_ids := load_processed_ids Scenario.raw_library |},
                     Scenario.raw_library)
                    (HUNTING_TIERS default_config)).1
           ∖ load_processed_ids Scenario.raw_library) ≤ 1)%nat.
Proof.
  destruct (download_stays_within_request default_config Scenario.tools 1 Scenario.raw_library
              (λ candidates, reflexivity candidates))
    as (_ & _ & _ & Hsize & _).
  split; [vm_compute; reflexivity | exact Hsize].
Defined.
